(** * comfyui-distributed: job collection and worker process management

    A shallow embedding of [distributed.py]: the job-queue table shared by
    the HTTP endpoints and the collector node, the collector's loop, and the
    bookkeeping of [WorkerProcessManager].

    Conventions.
    - A Python dict is a [gmap]; a Python set is a [gset]; an
      [asyncio.Queue] is the list of its pending items, oldest first.
    - An image batch (a torch tensor whose first dimension is the batch) is
      the list of its images; [torch.cat] along dimension 0 is [concat]
      when torch accepts the operands.
    - Whatever the code asks of the operating system, of torch or of the
      modules under [utils/] is a parameter of the model. *)

From Stdlib Require Import Ascii.
From stdpp Require Import base option list gmap strings sorting.

Local Open Scope Z_scope.

(** Python truthiness of a string. *)
Definition truthy (s : string) : bool := bool_decide (s ≠ "").

(** ** The job-queue table and its endpoints *)

Section Collector.

Context {image : Type}.

(** A tensor holding a batch of images. *)
Definition tensor : Type := list image.

(** Whether [torch.cat(tensors, dim=0)] accepts its operands (it raises on
    operands whose shapes disagree and on an empty operand list). *)
Context (cat_compatible : list tensor → bool).

Definition torch_cat (tensors : list tensor) : option tensor :=
  if cat_compatible tensors then Some (concat tensors) else None.

(** The dict put on the queue by [job_complete_endpoint].  [worker_id] is
    [data.get('worker_id')]: the text of the form field, or [None] when the
    form has no such field. *)
Record fragment : Type := Fragment {
  worker_id : option string;
  image_index : Z;
  frag_tensor : tensor;
  is_last : bool
}.

(** [prompt_server.distributed_pending_jobs]: job id to queue. *)
Abbreviation jobs_table := (gmap string (list fragment)).

(** The [image] field of the posted form: absent, present but rejected by
    [Image.open]/[pil_to_tensor], or decoded to a tensor. *)
Inductive image_field : Type :=
  | NoImage
  | BadImage
  | GoodImage (t : tensor).

(** The [image_index] field of the posted form: absent or empty (the code
    then takes 0), not accepted by [int()], or an integer. *)
Inductive index_field : Type :=
  | IdxMissing
  | IdxBad
  | IdxInt (i : Z).

(** The form posted to [/distributed/job_complete].  An absent
    [multi_job_id] and an empty one are both falsy and are both the empty
    string here; [req_worker] is [data.get('worker_id')], [None] when the
    form has no such field (the endpoint checks the job id and the image,
    not the worker id); [req_is_last] is
    [data.get('is_last','False').lower() == 'true']. *)
Record submit_request : Type := SubmitRequest {
  req_job : string;
  req_image : image_field;
  req_worker : option string;
  req_index : index_field;
  req_is_last : bool
}.

Inductive submit_response : Type :=
  | Success            (* 200, status success *)
  | MissingData        (* 400, Missing job_id or image data *)
  | ImageProcessingError (* 400, Image processing error *)
  | JobNotFound        (* 404, Job not found or already complete *)
  | InternalError.     (* the outer except *)

(** [prepare_job_endpoint], given the request's [multi_job_id]. *)
Definition prepare_job_endpoint (multi_job_id : string) (jobs : jobs_table)
    : bool * jobs_table :=
  if truthy multi_job_id then
    match jobs !! multi_job_id with
    | None => (true, <[multi_job_id := []]> jobs)
    | Some _ => (true, jobs)
    end
  else (false, jobs).

(** [job_complete_endpoint]. *)
Definition job_complete_endpoint (req : submit_request) (jobs : jobs_table)
    : submit_response * jobs_table :=
  let multi_job_id := req_job req in
  match truthy multi_job_id, req_image req with
  | false, _ | _, NoImage => (MissingData, jobs)
  | true, BadImage => (ImageProcessingError, jobs)
  | true, GoodImage tensor =>
      match jobs !! multi_job_id with
      | Some q =>
          match req_index req with
          | IdxBad => (InternalError, jobs)
          | IdxMissing =>
              (Success,
               <[multi_job_id := q ++ [Fragment (req_worker req) 0 tensor (req_is_last req)]]> jobs)
          | IdxInt i =>
              (Success,
               <[multi_job_id := q ++ [Fragment (req_worker req) i tensor (req_is_last req)]]> jobs)
          end
      | None => (JobNotFound, jobs)
      end
  end.

(** A request that puts the fragment [f] on the queue of [multi_job_id];
    when [f] carries a worker id, the form [send_image_to_master] posts. *)
Definition fragment_request (multi_job_id : string) (f : fragment) : submit_request :=
  SubmitRequest multi_job_id (GoodImage (frag_tensor f)) (worker_id f)
                (IdxInt (image_index f)) (is_last f).

(** ** The collector node *)

(** The collector's local variables [worker_images] and [workers_done].
    ([collected_count] and [timeout] only feed log lines.) *)
Record CollectionState : Type := Collection {
  worker_images : gmap (option string) (gmap Z tensor);
  workers_done : gset (option string)
}.

Definition empty_collection : CollectionState := Collection ∅ ∅.

(** The body shared by the loop and by the drain after a timeout:
<<
    if worker_id not in worker_images: worker_images[worker_id] = {}
    worker_images[worker_id][image_index] = tensor
    if is_last: workers_done.add(worker_id)
>> *)
Definition store_fragment (item : fragment) (cs : CollectionState) : CollectionState :=
  let wi0 := worker_images cs in
  let wi1 := match wi0 !! worker_id item with
             | None => <[worker_id item := ∅]> wi0
             | Some _ => wi0
             end in
  let wi2 := <[worker_id item :=
                 <[image_index item := frag_tensor item]> (wi1 !!! worker_id item)]> wi1 in
  Collection wi2
    (if is_last item then {[worker_id item]} ∪ workers_done cs else workers_done cs).

(** What the event loop does while the collector is suspended in
    [asyncio.wait_for(q.get(), timeout)]: it serves a request to
    [/distributed/prepare_job] or to [/distributed/job_complete], or the
    timer fires.  [EvTimeout raced] is a wait that ends in [TimeoutError];
    [raced] are the submissions served between the timer and the moment the
    collector holds the lock again, the ones the final drain is there for. *)
Inductive event : Type :=
  | EvPrepare (multi_job_id : string)
  | EvSubmit (req : submit_request)
  | EvTimeout (raced : list submit_request).

Inductive loop_exit : Type :=
  | AllDone     (* the while condition became false *)
  | TimedOut.   (* break in the except branch *)

Section Loop.

Variable multi_job_id : string.
Variable num_workers : nat.

Definition loop_guard (cs : CollectionState) : bool :=
  bool_decide (size (workers_done cs) < num_workers)%nat.

(** The iterations whose [q.get()] is answered from the items already in
    the queue. *)
Fixpoint run_queue (q : list fragment) (cs : CollectionState)
    : list fragment * CollectionState :=
  if loop_guard cs then
    match q with
    | [] => ([], cs)
    | result :: q' => run_queue q' (store_fragment result cs)
    end
  else (q, cs).

(** The except branch: drain with [get_nowait] what the queue holds, then
    bucket the drained items in order, without looking at the guard. *)
Definition timeout_drain (jobs : jobs_table) (cs : CollectionState)
    : jobs_table * CollectionState :=
  match jobs !! multi_job_id with
  | Some final_q =>
      (<[multi_job_id := []]> jobs, foldl (λ acc item, store_fragment item acc) cs final_q)
  | None => (jobs, cs)
  end.

Definition serve (jobs : jobs_table) (req : submit_request) : jobs_table :=
  (job_complete_endpoint req jobs).2.

(** The while loop, [while len(workers_done) < num_workers].  The queue is
    first in, first out and a submission only appends to it, so the items
    reach the loop in the order of their submissions however the requests
    interleave with the iterations.  A pass of [collect_loop] therefore runs
    the iterations the queue can answer ([run_queue]) and then, the guard
    still true and the queue empty, the iteration that suspends: the next
    event is served ([EvPrepare], [EvSubmit]) or the wait times out
    ([EvTimeout], or a schedule that has run out, when nobody answers).
    The queue of [multi_job_id] exists all along: [execute] creates it when
    absent and no event removes a queue. *)
Fixpoint collect_loop (sched : list event) (jobs : jobs_table) (cs : CollectionState)
    : loop_exit * jobs_table * CollectionState :=
  let '(q', cs') := run_queue (default [] (jobs !! multi_job_id)) cs in
  let jobs' := <[multi_job_id := q']> jobs in
  if loop_guard cs' then
    match sched with
    | [] =>
        let '(jobs'', cs'') := timeout_drain jobs' cs' in (TimedOut, jobs'', cs'')
    | EvTimeout raced :: _ =>
        let '(jobs'', cs'') := timeout_drain (foldl serve jobs' raced) cs' in
        (TimedOut, jobs'', cs'')
    | EvPrepare j :: sched' => collect_loop sched' (prepare_job_endpoint j jobs').2 cs'
    | EvSubmit req :: sched' => collect_loop sched' (serve jobs' req) cs'
    end
  else (AllDone, jobs', cs').

End Loop.

(** The order in which [sorted] puts worker ids.  Two strings compare as
    Python strings do.  [None] is put first: that is the order of a list
    whose only id is [None], the one list with [None] that [sorted] accepts. *)
Definition key_le (a b : option string) : Prop :=
  match a, b with
  | None, _ => True
  | Some _, None => False
  | Some x, Some y => String.le x y
  end.

#[global] Instance key_le_dec a b : Decision (key_le a b).
Proof. destruct a, b; simpl; apply _. Defined.

(** [sorted(worker_images.keys())].  Python compares a string with a
    string, and raises [TypeError] when asked to compare [None] with a
    string, which [sorted] does as soon as [None] is one of two keys or
    more: the result is then [None] here. *)
Definition sorted_worker_ids {V} (d : gmap (option string) V)
    : option (list (option string)) :=
  let keys := (map_to_list d).*1 in
  if bool_decide (None ∈ keys ∧ (1 < length keys)%nat) then None
  else Some (merge_sort key_le keys).

(** [sorted(worker_images[worker_id_str].keys())]. *)
Definition sorted_indices {V} (d : gmap Z V) : list Z :=
  merge_sort Z.le (map_to_list d).*1.

(** The two nested for loops appending to [ordered_tensors]; [None] when
    [sorted] raises, which it does before the first iteration. *)
Definition worker_tensors (wi : gmap (option string) (gmap Z tensor))
    : option (list tensor) :=
  ids ← sorted_worker_ids wi;
  Some (worker_id_str ← ids;
        idx ← sorted_indices (wi !!! worker_id_str);
        [(wi !!! worker_id_str) !!! idx]).

(** [ordered_tensors]: the master's images, one slice [images[i:i+1]]
    each, then the workers'. *)
Definition ordered_tensors (images : tensor) (wi : gmap (option string) (gmap Z tensor))
    : option (list tensor) :=
  tensors ← worker_tensors wi;
  Some (((λ img, [img]) <$> images) ++ tensors).

(** One call of [send_image_to_master]. *)
Record post : Type := Post {
  post_job : string;
  post_url : string;
  post_worker : string;
  post_index : nat;
  post_is_last : bool;
  post_image : image
}.

(** What a call of [execute] leaves behind.  [out_images] is the batch the
    call returns, [None] when the call raises instead ([TypeError], from
    [sorted]). *)
Record outcome : Type := Outcome {
  out_images : option tensor;
  out_jobs : jobs_table;   (* the job-queue table afterwards *)
  out_posts : list post    (* requests sent to the master *)
}.

(** The queue lookup before the loop, creating the queue when absent. *)
Definition ensure_queue (multi_job_id : string) (jobs : jobs_table) : jobs_table :=
  match jobs !! multi_job_id with
  | None => <[multi_job_id := []]> jobs
  | Some _ => jobs
  end.

(** The loop of [execute] in master mode, from the table the call finds. *)
Definition collect (multi_job_id : string) (enabled_workers : list string)
    (sched : list event) (jobs : jobs_table)
    : loop_exit * jobs_table * CollectionState :=
  collect_loop multi_job_id (length enabled_workers) sched
    (ensure_queue multi_job_id jobs) empty_collection.

(** [DistributedCollectorNode.execute].  [enabled_workers] is
    [json.loads(enabled_worker_ids)]; [sched] is what happens while the
    call is suspended. *)
Definition execute (images : tensor) (multi_job_id : string) (is_worker : bool)
    (master_url : string) (enabled_workers : list string) (worker_batch_size : nat)
    (worker_id : string) (sched : list event) (jobs : jobs_table) : outcome :=
  if is_worker then
    Outcome (Some images) jobs
      (imap (λ i img, Post multi_job_id master_url worker_id i
                        (bool_decide (i = length images - 1)%nat) img) images)
  else
    let num_workers := length enabled_workers in
    if bool_decide (num_workers = 0%nat) then Outcome (Some images) jobs []
    else
      let '(_, jobs', cs) := collect multi_job_id enabled_workers sched jobs in
      let jobs'' := match jobs' !! multi_job_id with
                    | Some _ => delete multi_job_id jobs'
                    | None => jobs'
                    end in
      match ordered_tensors images (worker_images cs) with
      | None => Outcome None jobs'' []
      | Some cpu_tensors =>
          match torch_cat cpu_tensors with
          | Some combined => Outcome (Some combined) jobs'' []
          | None => Outcome (Some images) jobs'' []
          end
      end.

(** [DistributedCollectorNode.run]; an exception of [execute] passes
    through. *)
Definition run (images : tensor) (multi_job_id : string) (is_worker : bool)
    (master_url : string) (enabled_workers : list string) (worker_batch_size : nat)
    (worker_id : string) (pass_through : bool) (sched : list event) (jobs : jobs_table)
    : outcome :=
  if negb (truthy multi_job_id) || pass_through then Outcome (Some images) jobs []
  else execute images multi_job_id is_worker master_url enabled_workers
         worker_batch_size worker_id sched jobs.

End Collector.

(** ** Worker process management *)

(** An entry of the [workers] list of the configuration. *)
Record WorkerConfig : Type := {
  cfg_id : string;
  cfg_name : string;
  cfg_host : string;
  cfg_port : Z;
  cfg_cuda_device : Z;
  cfg_enabled : bool;
  cfg_extra_args : string
}.

(** A [subprocess.Popen] object, known by the pid of its child. *)
Record Popen : Type := { popen_pid : Z }.

(** An entry of [WorkerProcessManager.processes].  [process] is [None] for
    an entry restored by [load_processes]; a key the dict lacks and the code
    reads with [.get(key, False)] is [false]. *)
Record ProcInfo : Type := {
  pid : Z;
  process : option Popen;
  started_at : option Z;
  config : option WorkerConfig;
  log_file : option string;
  is_monitor : bool;
  launching : bool
}.

(** An entry of [config['managed_processes']], as read back from the
    configuration file. *)
Record SavedProcess : Type := {
  saved_pid : option Z;
  saved_started_at : option Z;
  saved_config : option WorkerConfig;
  saved_log_file : option string;
  saved_launching : bool
}.

(** How the psutil branch of [_kill_process_tree] ends: at [return True],
    in [except psutil.NoSuchProcess], or in [except Exception]. *)
Inductive psutil_outcome : Type :=
  | PsKilled
  | PsNoSuchProcess
  | PsError.

(** What the operating system answers during one call. *)
Record OS : Type := {
  is_process_alive : Z → bool;          (* utils.process.is_process_alive *)
  popen_poll : Popen → option Z;        (* Popen.poll(): None while the child runs *)
  PSUTIL_AVAILABLE : bool;
  psutil_kill_tree : Z → psutil_outcome;
  os_commands_kill : Z → bool;          (* the taskkill / pkill branch *)
  terminate_process : Popen → option string  (* Some e: raises e *)
}.

(** What [launch_worker] finds when it runs. *)
Record LaunchEnv : Type := {
  main_py_exists : bool;
  popen_result : option Z;     (* the pid of the child, None when Popen raises *)
  time_now : Z;
  log_file_path : string;      (* logs/workers/<safe_name>_<date_stamp>.log *)
  stop_on_master_exit : bool
}.

(** A call of [subprocess.Popen] made by the manager. *)
Record Spawn : Type := {
  spawn_config : WorkerConfig;
  spawn_monitored : bool;
  spawn_pid : Z
}.

(** The manager and what it persists and starts. *)
Record Manager : Type := {
  processes : gmap string ProcInfo;
  managed_processes : gmap string SavedProcess;  (* config['managed_processes'] *)
  spawned : list Spawn
}.

Definition _is_process_running (os : OS) (pid : Z) : bool := is_process_alive os pid.

Definition _check_worker_process (os : OS) (proc_info : ProcInfo) : bool * bool :=
  match process proc_info with
  | Some p => (bool_decide (popen_poll os p = None), true)
  | None =>
      if bool_decide (pid proc_info ≠ 0) then (_is_process_running os (pid proc_info), false)
      else (false, false)
  end.

Definition _kill_process_tree (os : OS) (pid : Z) : bool :=
  let fallback := os_commands_kill os pid in
  if PSUTIL_AVAILABLE os then
    match psutil_kill_tree os pid with
    | PsKilled => true
    | PsNoSuchProcess => false
    | PsError => fallback
    end
  else fallback.

Definition save_processes (os : OS) (st : Manager) : Manager :=
  let managed :=
    omap (λ proc_info,
            if (_check_worker_process os proc_info).1 then
              Some {| saved_pid := Some (pid proc_info);
                      saved_started_at := started_at proc_info;
                      saved_config := config proc_info;
                      saved_log_file := log_file proc_info;
                      saved_launching := launching proc_info |}
            else None) (processes st) in
  {| processes := processes st; managed_processes := managed; spawned := spawned st |}.

(** The entry [load_processes] rebuilds from a saved one. *)
Definition restored (pid : Z) (proc_info : SavedProcess) : ProcInfo :=
  {| pid := pid;
     process := None;
     started_at := saved_started_at proc_info;
     config := saved_config proc_info;
     log_file := saved_log_file proc_info;
     is_monitor := false;
     launching := false |}.

(** The body of the for loop of [load_processes]. *)
Definition load_step (os : OS) (worker_id : string) (proc_info : SavedProcess)
    (procs : gmap string ProcInfo) : gmap string ProcInfo :=
  match saved_pid proc_info with
  | Some pid =>
      if bool_decide (pid ≠ 0) && _is_process_running os pid
      then <[worker_id := restored pid proc_info]> procs
      else procs
  | None => procs
  end.

Definition load_processes (os : OS) (st : Manager) : Manager :=
  let procs := map_fold (load_step os) (processes st) (managed_processes st) in
  {| processes := procs; managed_processes := managed_processes st; spawned := spawned st |}.

(** [WorkerProcessManager.__init__] over the configuration on disk. *)
Definition init (os : OS) (saved : gmap string SavedProcess) : Manager :=
  load_processes os {| processes := ∅; managed_processes := saved; spawned := [] |}.

Definition evict (worker_id : string) (st : Manager) : Manager :=
  {| processes := delete worker_id (processes st);
     managed_processes := managed_processes st;
     spawned := spawned st |}.

(** [launch_worker]: the pid, or [None] when it raises. *)
Definition launch_worker (env : LaunchEnv) (os : OS) (worker_config : WorkerConfig)
    (st : Manager) : option Z * Manager :=
  if main_py_exists env then
    match popen_result env with
    | Some child =>
        let entry := {| pid := child;
                        process := Some {| popen_pid := child |};
                        started_at := Some (time_now env);
                        config := Some worker_config;
                        log_file := Some (log_file_path env);
                        is_monitor := stop_on_master_exit env;
                        launching := true |} in
        (Some child,
         save_processes os
           {| processes := <[cfg_id worker_config := entry]> (processes st);
              managed_processes := managed_processes st;
              spawned := spawned st ++
                [{| spawn_config := worker_config;
                    spawn_monitored := stop_on_master_exit env;
                    spawn_pid := child |}] |})
    | None => (None, st)
    end
  else (None, st).

Inductive launch_response : Type :=
  | MissingWorkerId                                     (* 400 *)
  | WorkerNotFound                                      (* 404 *)
  | AlreadyRunning (pid : Z) (log_file : option string) (* 409 *)
  | Launched (pid : Z) (log_file : option string)       (* 200 *)
  | LaunchError.                                        (* 500 *)

(** [launch_worker_endpoint]; [workers] is [load_config()['workers']]. *)
Definition launch_worker_endpoint (workers : list WorkerConfig) (env : LaunchEnv)
    (os : OS) (worker_id : string) (st : Manager) : launch_response * Manager :=
  if truthy worker_id then
    match List.find (λ w, bool_decide (cfg_id w = worker_id)) workers with
    | None => (WorkerNotFound, st)
    | Some worker =>
        let launch st :=
          match launch_worker env os worker st with
          | (Some child, st') =>
              (Launched child (processes st' !! worker_id ≫= log_file), st')
          | (None, st') => (LaunchError, st')
          end in
        match processes st !! worker_id with
        | Some proc_info =>
            let is_running :=
              match process proc_info with
              | Some p => bool_decide (popen_poll os p = None)
              | None => _is_process_running os (pid proc_info)
              end in
            if is_running then (AlreadyRunning (pid proc_info) (log_file proc_info), st)
            else launch (save_processes os (evict worker_id st))
        | None => launch st
        end
    end
  else (MissingWorkerId, st).

(** [stop_worker]: the pair it returns and the manager afterwards. *)
Definition stop_worker (os : OS) (worker_id : string) (st : Manager)
    : (bool * string) * Manager :=
  match processes st !! worker_id with
  | None => ((false, "Worker not managed by UI"), st)
  | Some proc_info =>
      match process proc_info with
      | None =>
          if _kill_process_tree os (pid proc_info)
          then ((true, "Worker stopped"), save_processes os (evict worker_id st))
          else ((false, "Failed to stop worker process"), st)
      | Some p =>
          match popen_poll os p with
          | Some _ =>
              ((false, "Worker already stopped"), save_processes os (evict worker_id st))
          | None =>
              if _kill_process_tree os (pid proc_info)
              then ((true, "Worker stopped"), save_processes os (evict worker_id st))
              else
                match terminate_process os p with
                | Some e => ((false, "Error stopping worker: " +:+ e), st)
                | None =>
                    ((true, "Worker stopped (fallback)"),
                     save_processes os (evict worker_id st))
                end
          end
      end
  end.

(** ** Reading the buckets back *)

(** The buckets of [worker_images] as the list of their entries: worker
    ids in the order of [key_le], then indices in increasing order.  That is
    the order in which [worker_tensors] visits them when [sorted] returns. *)
Definition bucket_entries {image : Type} (wi : gmap (option string) (gmap Z (list image)))
    : list (option string * Z * list image) :=
  w ← merge_sort key_le (map_to_list wi).*1;
  idx ← sorted_indices (wi !!! w);
  [(w, idx, (wi !!! w) !!! idx)].

(** Lexicographic order on (worker id, image index): worker ids compared as
    strings (an absent id before every string), then indices as integers. *)
Definition entry_lt {image : Type} (e1 e2 : option string * Z * list image) : Prop :=
  (key_le e1.1.1 e2.1.1 ∧ e1.1.1 ≠ e2.1.1) ∨ (e1.1.1 = e2.1.1 ∧ e1.1.2 < e2.1.2).

(** The fragment a well-formed request puts on a queue. *)
Definition request_fragment {image : Type} (req : @submit_request image)
    : option (@fragment image) :=
  match req_image req, req_index req with
  | GoodImage t, IdxMissing => Some (Fragment (req_worker req) 0 t (req_is_last req))
  | GoodImage t, IdxInt i => Some (Fragment (req_worker req) i t (req_is_last req))
  | _, _ => None
  end.

(** [g] does not put another payload in the slot of [f]. *)
Definition agrees {image : Type} (f g : @fragment image) : Prop :=
  worker_id g = worker_id f → image_index g = image_index f →
  frag_tensor g = frag_tensor f.


(** The buckets hold [f]'s payload in [f]'s slot, and [f]'s worker is done
    if [f] was its last fragment. *)
Definition absorbed {image : Type} (f : @fragment image) (cs : @CollectionState image)
    : Prop :=
  (∃ m, worker_images cs !! worker_id f = Some m
        ∧ m !! image_index f = Some (frag_tensor f)) ∧
  (is_last f = true → worker_id f ∈ workers_done cs).

(** The liveness test of the launch endpoint: the child of a live handle
    has not exited; the pid of a restored entry is that of a live process. *)
Definition still_running (os : OS) (proc_info : ProcInfo) : bool :=
  match process proc_info with
  | Some p => bool_decide (popen_poll os p = None)
  | None => is_process_alive os (pid proc_info)
  end.

(** A stop that failed for good: not the answer for an unmanaged id, not
    the report that the worker had already stopped. *)
Definition stop_error (res : bool * string) : Prop :=
  res.1 = false ∧ res.2 ≠ "Worker not managed by UI" ∧ res.2 ≠ "Worker already stopped".

(** ** Sample runs *)

(** A torch that concatenates whatever it is given. *)
Definition sample_cat : list (list nat) → bool := λ _, true.

Definition sample_fragment (w : string) (i : Z) (px : nat) (last : bool) : @fragment nat :=
  Fragment (Some w) i [px] last.

(** Job "j1" prepared, nothing submitted yet. *)
Definition sample_jobs : gmap string (list (@fragment nat)) := {["j1" := []]}.

(** Workers "3" and "1" each send their last fragment; "2" sends nothing. *)
Definition sample_unexpected : list (@event nat) :=
  [EvSubmit (fragment_request "j1" (sample_fragment "3" 0 7 true));
   EvSubmit (fragment_request "j1" (sample_fragment "1" 0 8 true))].

(** Worker "a" sends its only fragment. *)
Definition sample_single : list (@event nat) :=
  [EvSubmit (fragment_request "j1" (sample_fragment "a" 0 7 true))].

(** A request for "j1" whose form has no [worker_id] field. *)
Definition sample_anonymous : @submit_request nat :=
  SubmitRequest "j1" (GoodImage [6%nat]) None (IdxInt 0) false.





(** A system where no kill succeeds and termination raises. *)
Definition sample_os_stuck : OS :=
  {| is_process_alive := λ _, true;
     popen_poll := λ _, None;
     PSUTIL_AVAILABLE := true;
     psutil_kill_tree := λ _, PsError;
     os_commands_kill := λ _, false;
     terminate_process := λ _, Some "timed out" |}.

(** A system where pid 4242 is alive and pid 17 is not. *)
Definition sample_os : OS :=
  {| is_process_alive := λ p, bool_decide (p = 4242);
     popen_poll := λ _, None;
     PSUTIL_AVAILABLE := false;
     psutil_kill_tree := λ _, PsKilled;
     os_commands_kill := λ _, true;
     terminate_process := λ _, None |}.

Definition sample_worker : WorkerConfig :=
  {| cfg_id := "1"; cfg_name := "Worker 1"; cfg_host := "localhost"; cfg_port := 8189;
     cfg_cuda_device := 1; cfg_enabled := true; cfg_extra_args := "" |}.

Definition sample_env : LaunchEnv :=
  {| main_py_exists := true; popen_result := Some 5000; time_now := 1700000000;
     log_file_path := "logs/workers/Worker_1_20240101.log"; stop_on_master_exit := true |}.

(** Worker "1" on record with the handle of its child. *)
Definition sample_launched : ProcInfo :=
  {| pid := 4242; process := Some {| popen_pid := 4242 |};
     started_at := Some 1700000000; config := Some sample_worker;
     log_file := Some "logs/workers/Worker_1_20240101.log";
     is_monitor := true; launching := true |}.

Definition sample_saved (p : Z) : SavedProcess :=
  {| saved_pid := Some p; saved_started_at := Some 1700000000;
     saved_config := Some sample_worker;
     saved_log_file := Some "logs/workers/Worker_1_20240101.log";
     saved_launching := false |}.

Definition sample_manager (proc_info : ProcInfo) : Manager :=
  {| processes := {["1" := proc_info]}; managed_processes := ∅; spawned := [] |}.

(** ** The rest of the manager *)

(** What [get_managed_workers] reports for one worker. *)
Record ManagedInfo : Type := {
  info_pid : Z;
  info_started_at : option Z;
  info_log_file : option string;
  info_launching : bool
}.

Definition managed_info (proc_info : ProcInfo) : ManagedInfo :=
  {| info_pid := pid proc_info;
     info_started_at := started_at proc_info;
     info_log_file := log_file proc_info;
     info_launching := launching proc_info |}.

(** The body of the for loop of [get_managed_workers]: a running worker is
    reported, a stopped one is deleted from [self.processes]. *)
Definition managed_step (os : OS) (worker_id : string) (proc_info : ProcInfo)
    (acc : gmap string ManagedInfo * gmap string ProcInfo)
    : gmap string ManagedInfo * gmap string ProcInfo :=
  if (_check_worker_process os proc_info).1
  then (<[worker_id := managed_info proc_info]> acc.1, acc.2)
  else (acc.1, delete worker_id acc.2).

(** [get_managed_workers]: the dict it returns and the manager afterwards.
    The loop runs over [list(self.processes.items())], a copy taken before
    the first deletion. *)
Definition get_managed_workers (os : OS) (st : Manager)
    : gmap string ManagedInfo * Manager :=
  let acc := map_fold (managed_step os) (∅, processes st) (processes st) in
  (acc.1,
   {| processes := acc.2; managed_processes := managed_processes st;
      spawned := spawned st |}).

(** [cleanup_all]: [stop_worker] on every key of [self.processes], then an
    empty [managed_processes] written to the configuration. *)
Definition cleanup_all (os : OS) (st : Manager) : Manager :=
  let st' := map_fold (λ worker_id _ acc, (stop_worker os worker_id acc).2)
                      st (processes st) in
  {| processes := processes st'; managed_processes := ∅; spawned := spawned st' |}.

(** [cleanup_on_exit], given the setting [stop_workers_on_master_exit]. *)
Definition cleanup_on_exit (stop_workers : bool) (os : OS) (st : Manager) : Manager :=
  if stop_workers then cleanup_all os st else save_processes os st.

(** An entry without its ['launching'] key. *)
Definition without_launching (proc_info : ProcInfo) : ProcInfo :=
  {| pid := pid proc_info;
     process := process proc_info;
     started_at := started_at proc_info;
     config := config proc_info;
     log_file := log_file proc_info;
     is_monitor := is_monitor proc_info;
     launching := false |}.

(** [clear_launching_state].  The request's [worker_id] goes through
    [str()], so an absent one becomes the string "None"; the answer is
    [false] for status 400 and [true] for success. *)
Definition clear_launching_state (os : OS) (worker_id : option string) (st : Manager)
    : bool * Manager :=
  let worker_id := default "None" worker_id in
  if truthy worker_id then
    match processes st !! worker_id with
    | Some proc_info =>
        if launching proc_info then
          (true,
           save_processes os
             {| processes := <[worker_id := without_launching proc_info]> (processes st);
                managed_processes := managed_processes st;
                spawned := spawned st |})
        else (true, st)
    | None => (true, st)
    end
  else (false, st).

(** Python's [needle in hay] on strings. *)
Fixpoint contains (needle hay : string) : bool :=
  String.prefix needle hay ||
  match hay with
  | EmptyString => false
  | String _ hay' => contains needle hay'
  end.

(** [stop_worker_endpoint]: the HTTP status, the message and the manager
    afterwards. *)
Definition stop_worker_endpoint (os : OS) (worker_id : string) (st : Manager)
    : (Z * string) * Manager :=
  if truthy worker_id then
    let '((success, message), st') := stop_worker os worker_id st in
    if success then ((200, message), st')
    else ((if contains "not managed" message then 404 else 409, message), st')
  else ((400, "Missing worker_id"), st).

(** An entry with ['launching'] set. *)
Definition with_launching (proc_info : ProcInfo) : ProcInfo :=
  {| pid := pid proc_info;
     process := process proc_info;
     started_at := started_at proc_info;
     config := config proc_info;
     log_file := log_file proc_info;
     is_monitor := is_monitor proc_info;
     launching := true |}.

Section AutoLaunch.

(** Python's [str.lower]. *)
Variable py_lower : string → string.

(** What each call of [launch_worker] finds. *)
Variable env_for : WorkerConfig → LaunchEnv.

(** The test that skips remote workers; [cfg_host] is
    [worker.get('host', 'localhost')]. *)
Definition is_local (worker : WorkerConfig) : bool :=
  bool_decide (py_lower (cfg_host worker) ∈ ["localhost"; "127.0.0.1"; ""]).

(** Whether the loop launches [worker], given the entry it finds under the
    worker's id: the worker is enabled and local, and not on record with the
    pid of a live process. *)
Definition would_launch (os : OS) (worker : WorkerConfig) (found : option ProcInfo) : bool :=
  cfg_enabled worker && is_local worker &&
  match found with
  | Some proc_info => negb (is_process_alive os (pid proc_info))
  | None => true
  end.

(** The launch in the loop of [auto_launch_workers]: on success the entry is
    marked as launching once more and saved; a launch that raises is logged
    and the loop goes on. *)
Definition auto_launch_one (os : OS) (worker : WorkerConfig) (st : Manager) : Manager :=
  match launch_worker (env_for worker) os worker st with
  | (Some _, st') =>
      match processes st' !! cfg_id worker with
      | Some proc_info =>
          save_processes os
            {| processes := <[cfg_id worker := with_launching proc_info]> (processes st');
               managed_processes := managed_processes st';
               spawned := spawned st' |}
      | None => st'
      end
  | (None, st') => st'
  end.

(** The body of the for loop of [auto_launch_workers]. *)
Definition auto_launch_step (os : OS) (st : Manager) (worker : WorkerConfig) : Manager :=
  if cfg_enabled worker then
    if is_local worker then
      match processes st !! cfg_id worker with
      | Some proc_info =>
          if _is_process_running os (pid proc_info) then st
          else auto_launch_one os worker st
      | None => auto_launch_one os worker st
      end
    else st
  else st.

(** [auto_launch_workers], given the setting [auto_launch_workers] and the
    [workers] list of the configuration. *)
Definition auto_launch_workers (auto_launch : bool) (workers : list WorkerConfig)
    (os : OS) (st : Manager) : Manager :=
  if auto_launch then
    foldl (auto_launch_step os)
      {| processes := processes st; managed_processes := ∅; spawned := spawned st |}
      workers
  else st.

End AutoLaunch.

(** ** The seed node and the address recommendation *)

(** Python's [s.split(sep)] for a separator of one character. *)
Fixpoint split_on (sep : Ascii.ascii) (s : string) : list string :=
  match s with
  | EmptyString => [EmptyString]
  | String c s' =>
      if decide (c = sep) then EmptyString :: split_on sep s'
      else match split_on sep s' with
           | part :: parts => String c part :: parts
           | [] => [String c EmptyString]
           end
  end.

(** [sep in s]. *)
Fixpoint has_char (sep : Ascii.ascii) (s : string) : bool :=
  match s with
  | EmptyString => false
  | String c s' => bool_decide (c = sep) || has_char sep s'
  end.

Section PyInt.

(** Python's [int(s)] on a string: [None] when it raises [ValueError]. *)
Variable py_int : string → option Z.

(** [DistributedSeed.distribute]. *)
Definition distribute (seed : Z) (is_worker : bool) (worker_id : string) : Z :=
  if negb is_worker then seed
  else
    let worker_index :=
      if String.prefix "worker_" worker_id
      then part ← split_on "_"%char worker_id !! 1%nat; py_int part
      else py_int worker_id in
    match worker_index with
    | Some worker_index => let offset := worker_index + 1 in seed + offset
    | None => seed
    end.

(** The test that sends an address to [private_ips]; [None] when [int()]
    raises on the second component of an address that starts with "172.". *)
Definition is_private_ip (ip : string) : option bool :=
  if String.prefix "192.168." ip || String.prefix "10." ip then Some true
  else if String.prefix "172." ip then
    part ← split_on "."%char ip !! 1%nat;
    n ← py_int part;
    Some (bool_decide (16 ≤ n ≤ 31))
  else Some false.

(** The test that skips an address. *)
Definition is_loopback (ip : string) : bool :=
  String.prefix "127." ip || String.eqb ip "localhost".

(** The for loop of [get_recommended_ip]: [private_ips] and [public_ips],
    or [None] when the loop raises. *)
Fixpoint classify_ips (ips : list string) : option (list string * list string) :=
  match ips with
  | [] => Some ([], [])
  | ip :: ips' =>
      if is_loopback ip then classify_ips ips'
      else
        private ← is_private_ip ip;
        lists ← classify_ips ips';
        Some (if private : bool then (ip :: lists.1, lists.2) else (lists.1, ip :: lists.2))
  end.

(** [get_recommended_ip]: the outer [None] is an exception, the inner one
    Python's [None]. *)
Definition get_recommended_ip (ips : list string) : option (option string) :=
  lists ← classify_ips ips;
  Some (match lists.1 with
        | first :: _ =>
            match List.find (String.prefix "192.168.") lists.1 with
            | Some ip => Some ip
            | None => Some first
            end
        | [] =>
            match lists.2 with
            | first :: _ => Some first
            | [] => head ips
            end
        end).

End PyInt.

(** ** Reading the manager *)

(** The entry [save_processes] writes for a running worker. *)
Definition saved_entry (proc_info : ProcInfo) : SavedProcess :=
  {| saved_pid := Some (pid proc_info);
     saved_started_at := started_at proc_info;
     saved_config := config proc_info;
     saved_log_file := log_file proc_info;
     saved_launching := launching proc_info |}.

(** [_check_worker_process] says the worker runs. *)
Definition running (os : OS) (proc_info : ProcInfo) : bool :=
  (_check_worker_process os proc_info).1.

(** The branches of [stop_worker] that return without deleting the entry:
    the tree kill fails and there is no handle, or there is one and the
    fallback termination raises. *)
Definition stop_fails (os : OS) (proc_info : ProcInfo) : bool :=
  match process proc_info with
  | None => negb (_kill_process_tree os (pid proc_info))
  | Some p =>
      bool_decide (popen_poll os p = None)
      && negb (_kill_process_tree os (pid proc_info))
      && bool_decide (is_Some (terminate_process os p))
  end.

(** The pid [launch_worker] returns in a given environment, [None] when it
    raises: [main.py] is missing or [Popen] fails. *)
Definition launch_pid (env : LaunchEnv) : option Z :=
  if main_py_exists env then popen_result env else None.

(** The entry [launch_worker] records for a child. *)
Definition launched_entry (env : LaunchEnv) (worker : WorkerConfig) (child : Z) : ProcInfo :=
  {| pid := child;
     process := Some {| popen_pid := child |};
     started_at := Some (time_now env);
     config := Some worker;
     log_file := Some (log_file_path env);
     is_monitor := stop_on_master_exit env;
     launching := true |}.

(** The [Popen] call [launch_worker] makes for a child. *)
Definition launched_spawn (env : LaunchEnv) (worker : WorkerConfig) (child : Z) : Spawn :=
  {| spawn_config := worker;
     spawn_monitored := stop_on_master_exit env;
     spawn_pid := child |}.

(** ** Reading the collector *)

(** The request the master receives for a post of [send_image_to_master]:
    the index and the flag come back from their [str()] forms, and
    [received] is what [pil_to_tensor] makes of the PNG the worker made of
    its image. *)
Definition post_request {image : Type} (received : image → list image)
    (p : @post image) : @submit_request image :=
  SubmitRequest (post_job p) (GoodImage (received (post_image p)))
                (Some (post_worker p))
                (IdxInt (Z.of_nat (post_index p))) (post_is_last p).

(** The fragments a request adds to the queue of job [j], the queue being
    there: one for a well-formed request that names [j], none otherwise. *)
Definition served_fragments {image : Type} (j : string) (req : @submit_request image)
    : list (@fragment image) :=
  if truthy (req_job req) && bool_decide (req_job req = j)
  then match request_fragment req with Some g => [g] | None => [] end
  else [].

(** The fragments served to job [j] before the first wait that times out. *)
Fixpoint arrivals {image : Type} (j : string) (sched : list (@event image))
    : list (@fragment image) :=
  match sched with
  | [] => []
  | EvPrepare _ :: sched' => arrivals j sched'
  | EvSubmit req :: sched' => served_fragments j req ++ arrivals j sched'
  | EvTimeout _ :: _ => []
  end.

(** The fragments served to job [j] between that timeout and the drain. *)
Fixpoint raced_in {image : Type} (j : string) (sched : list (@event image))
    : list (@fragment image) :=
  match sched with
  | [] => []
  | EvTimeout raced :: _ => raced ≫= served_fragments j
  | _ :: sched' => raced_in j sched'
  end.

(** An event that has to do with job [j]. *)
Definition targets {image : Type} (j : string) (ev : @event image) : Prop :=
  match ev with
  | EvPrepare j' => j' = j
  | EvSubmit req => req_job req = j
  | EvTimeout raced => Exists (λ req, req_job req = j) raced
  end.

(** Bucketing a list of fragments in order. *)
Definition store_all {image : Type} (cs : @CollectionState image)
    (fs : list (@fragment image)) : @CollectionState image :=
  foldl (λ acc item, store_fragment item acc) cs fs.




(** The fragments the master queues for a worker that sends the batch
    [imgs] in worker mode: one per image, numbered from 0, the last one
    flagged. *)
Definition worker_fragments {image : Type} (received : image → list image)
    (w : string) (imgs : list image) : list (@fragment image) :=
  imap (λ i img, Fragment (Some w) (Z.of_nat i) (received img)
                   (bool_decide (i = length imgs - 1)%nat)) imgs.

(** The same batch as bucket entries. *)
Definition worker_entries {image : Type} (received : image → list image)
    (w : string) (imgs : list image) : list (option string * Z * list image) :=
  imap (λ i img, (Some w, Z.of_nat i, received img)) imgs.

(** ** More sample runs *)

(** A system where every handle reports exit code 0. *)
Definition sample_os_exited : OS :=
  {| is_process_alive := λ _, false;
     popen_poll := λ _, Some 0;
     PSUTIL_AVAILABLE := false;
     psutil_kill_tree := λ _, PsKilled;
     os_commands_kill := λ _, true;
     terminate_process := λ _, None |}.

(** A worker on another machine. *)
Definition sample_remote_worker : WorkerConfig :=
  {| cfg_id := "2"; cfg_name := "Worker 2"; cfg_host := "192.168.1.20"; cfg_port := 8190;
     cfg_cuda_device := 0; cfg_enabled := true; cfg_extra_args := "" |}.

(** [str.lower] on ASCII text. *)
Definition ascii_lower (c : Ascii.ascii) : Ascii.ascii :=
  let n := Ascii.nat_of_ascii c in
  if ((65 <=? n) && (n <=? 90))%nat then Ascii.ascii_of_nat (n + 32) else c.

Fixpoint sample_lower (s : string) : string :=
  match s with
  | EmptyString => EmptyString
  | String c s' => String (ascii_lower c) (sample_lower s')
  end.

(** Every launch finds [main.py] and gets pid 5000 from [Popen]. *)
Definition sample_env_for : WorkerConfig → LaunchEnv := λ _, sample_env.

(** [int()] on a string of decimal digits; this reading refuses every other
    string. *)
Definition digit_value (c : Ascii.ascii) : option Z :=
  let n := Z.of_nat (Ascii.nat_of_ascii c) in
  if bool_decide (48 ≤ n ≤ 57) then Some (n - 48) else None.

Fixpoint sample_int_from (acc : Z) (s : string) : option Z :=
  match s with
  | EmptyString => Some acc
  | String c s' => d ← digit_value c; sample_int_from (10 * acc + d) s'
  end.

Definition sample_int (s : string) : option Z :=
  match s with
  | EmptyString => None
  | _ => sample_int_from 0 s
  end.

(** The master reads each posted image back as a batch of one. *)
Definition sample_received : nat → list nat := λ px, [px].

(** Worker "1" holds two images, any other worker one. *)
Definition sample_batch (w : string) : list nat :=
  if String.eqb w "1" then [10; 11]%nat else [20]%nat.

(** The requests of "1" and "2" as the master is served them, the one of
    "2" between the two of "1". *)
Definition sample_requests : list (@submit_request nat) :=
  [SubmitRequest "j1" (GoodImage [10%nat]) (Some "1") (IdxInt 0) false;
   SubmitRequest "j1" (GoodImage [20%nat]) (Some "2") (IdxInt 0) true;
   SubmitRequest "j1" (GoodImage [11%nat]) (Some "1") (IdxInt 1) true].

(** Job "j1" prepared and empty, job "j2" with one fragment pending. *)
Definition sample_two_jobs : gmap string (list (@fragment nat)) :=
  {["j1" := []; "j2" := [sample_fragment "z" 0 99 true]]}.

(** The addresses of a machine with a loopback interface and two private
    ones. *)
Definition sample_ips : list string := ["127.0.0.1"; "10.0.0.5"; "192.168.1.7"].

(** * Sorted lists built by nested loops *)

Lemma StronglySorted_strict {A} (R : relation A) (l : list A) :
  StronglySorted R l → NoDup l → StronglySorted (λ x y, R x y ∧ x ≠ y) l.
Proof.
  induction 1 as [|x l Hl IH Hx]; intros Hnd; [constructor|].
  apply NoDup_cons in Hnd as [Hxl Hnd]. constructor; [by apply IH|].
  rewrite Forall_forall in Hx |- *. intros y Hy. split; [by apply Hx|].
  intros ->. by apply Hxl.
Qed.

Lemma StronglySorted_bind {A B} (R1 : relation A) (R : relation B)
    (f : A → list B) (l : list A) :
  StronglySorted R1 l →
  (∀ x, x ∈ l → StronglySorted R (f x)) →
  (∀ x y b1 b2, R1 x y → b1 ∈ f x → b2 ∈ f y → R b1 b2) →
  StronglySorted R (l ≫= f).
Proof.
  intros Hl Hf Hcross. induction Hl as [|x l Hl IH Hx]; [constructor|].
  rewrite bind_cons. apply StronglySorted_app_2.
  - intros b1 b2 Hb1 Hb2. apply list_elem_of_bind in Hb2 as (y & Hb2 & Hy).
    rewrite Forall_forall in Hx. by apply (Hcross x y); [apply Hx|..].
  - apply Hf. by left.
  - apply IH. intros y Hy. apply Hf. by right.
Qed.

Lemma fmap_bind_list {A B C} (g : B → C) (f : A → list B) (l : list A) :
  g <$> (l ≫= f) = l ≫= (λ x, g <$> f x).
Proof.
  induction l as [|x l IH]; [done|]. by rewrite !bind_cons, fmap_app, IH.
Qed.

Lemma concat_singletons {A} (l : list A) : concat ((λ x, [x]) <$> l) = l.
Proof. induction l as [|x l IH]; [done|]. rewrite fmap_cons. simpl. by f_equal. Qed.

Lemma elem_of_map_keys `{Countable K} {V} (d : gmap K V) (k : K) :
  k ∈ (map_to_list d).*1 ↔ is_Some (d !! k).
Proof.
  rewrite list_elem_of_fmap. split.
  - intros [[k' v] [-> Hkv%elem_of_map_to_list]]. eauto.
  - intros [v Hv]. exists (k, v). split; [done|]. by apply elem_of_map_to_list.
Qed.

#[local] Instance key_le_trans : Transitive key_le.
Proof.
  intros [x|] [y|] [z|]; simpl; try done. apply (transitivity (R:=String.le)).
Qed.

#[local] Instance key_le_total : Total key_le.
Proof.
  intros [x|] [y|]; simpl; auto. apply (total String.le).
Qed.

#[local] Instance key_le_anti_symm : AntiSymm (=) key_le.
Proof.
  intros [x|] [y|]; simpl; try done. intros Hxy Hyx. f_equal.
  by apply (anti_symm String.le).
Qed.

Lemma sorted_keys_spec {V} (d : gmap (option string) V) :
  StronglySorted (λ x y, key_le x y ∧ x ≠ y) (merge_sort key_le (map_to_list d).*1) ∧
  ∀ w, w ∈ merge_sort key_le (map_to_list d).*1 ↔ is_Some (d !! w).
Proof.
  split.
  - apply StronglySorted_strict; [apply StronglySorted_merge_sort; apply _|].
    rewrite merge_sort_Permutation. apply NoDup_fst_map_to_list.
  - intros w. by rewrite merge_sort_Permutation, elem_of_map_keys.
Qed.

(** [sorted] raises exactly when the dict has the key [None] beside a
    string key. *)
Lemma sorted_worker_ids_None {V} (d : gmap (option string) V) :
  sorted_worker_ids d = None ↔ is_Some (d !! None) ∧ ∃ w, is_Some (d !! Some w).
Proof.
  unfold sorted_worker_ids. case_bool_decide as Hk.
  - split; [intros _|done]. destruct Hk as [Hnone Hlen].
    split; [by apply elem_of_map_keys|].
    apply list_elem_of_split in Hnone as (l1 & l2 & Hl).
    pose proof (NoDup_fst_map_to_list d) as Hnd. rewrite Hl in Hnd, Hlen.
    assert (∃ k, k ∈ l1 ++ l2) as [k Hin].
    { rewrite length_app in Hlen. simpl in Hlen.
      destruct l1 as [|k l1]; [destruct l2 as [|k l2]; [simpl in Hlen; lia|]|];
        exists k; [apply elem_of_app; right|]; by left. }
    apply NoDup_app in Hnd as (Hnd1 & Hnd12 & Hnd2).
    apply NoDup_cons in Hnd2 as [Hnd2 _].
    destruct k as [w|].
    + exists w. apply elem_of_map_keys. rewrite Hl.
      apply elem_of_app in Hin as [Hin|Hin]; apply elem_of_app; [by left|].
      right. by right.
    + exfalso. apply elem_of_app in Hin as [Hin|Hin]; [|done].
      apply (Hnd12 None Hin). by left.
  - split; [done|]. intros [Hnone [w Hw]]. exfalso. apply Hk.
    apply elem_of_map_keys in Hnone, Hw. split; [done|].
    assert ([None; Some w] ⊆+ (map_to_list d).*1) as Hsub.
    { apply NoDup_submseteq.
      - apply NoDup_cons. split; [|apply NoDup_singleton].
        by intros ?%list_elem_of_singleton.
      - intros k [->|[->|?%elem_of_nil]%elem_of_cons]%elem_of_cons; done. }
    apply submseteq_length in Hsub. simpl in Hsub. lia.
Qed.

Lemma sorted_worker_ids_Some {V} (d : gmap (option string) V) ids :
  sorted_worker_ids d = Some ids → ids = merge_sort key_le (map_to_list d).*1.
Proof. unfold sorted_worker_ids. case_bool_decide; [done|]. by intros [= <-]. Qed.

Lemma sorted_indices_spec {V} (d : gmap Z V) :
  StronglySorted (λ x y, x ≤ y ∧ x ≠ y) (sorted_indices d) ∧
  ∀ i, i ∈ sorted_indices d ↔ is_Some (d !! i).
Proof.
  unfold sorted_indices. split.
  - apply StronglySorted_strict; [apply StronglySorted_merge_sort; apply _|].
    rewrite merge_sort_Permutation. apply NoDup_fst_map_to_list.
  - intros w. by rewrite merge_sort_Permutation, elem_of_map_keys.
Qed.

(** [String.le], by which worker ids are sorted, is the lexicographic
    order on character codes: the empty string comes first, and two
    non-empty strings compare by their first characters, then by the rest. *)
Lemma string_le_lexicographic :
  (∀ s, String.le "" s) ∧
  (∀ a s, ¬ String.le (String a s) "") ∧
  (∀ a b s t,
     String.le (String a s) (String b t) ↔
     (Ascii.N_of_ascii a < Ascii.N_of_ascii b)%N ∨ (a = b ∧ String.le s t)).
Proof.
  unfold String.le, String.leb. split; [|split].
  - intros [|a s]; exact I.
  - intros a s Hle. exact Hle.
  - intros a b s t. simpl. unfold Ascii.compare.
    destruct (N.compare_spec (Ascii.N_of_ascii a) (Ascii.N_of_ascii b)) as [Heq|Hlt|Hgt].
    + assert (a = b) as ->.
      { by rewrite <-(Ascii.ascii_N_embedding a), <-(Ascii.ascii_N_embedding b), Heq. }
      split; [by right|]. intros [?|[_ ?]]; [lia|done].
    + simpl. split; [by left|done].
    + simpl. split; [done|]. intros [?|[-> _]]; lia.
Qed.

Lemma StronglySorted_irrefl_NoDup {A} (R : relation A) (l : list A) :
  (∀ x, ¬ R x x) → StronglySorted R l → NoDup l.
Proof.
  intros Hirr. induction 1 as [|x l Hl IH Hx]; [constructor|].
  apply NoDup_cons. split; [|done]. intros Hin.
  rewrite Forall_forall in Hx. by apply (Hirr x), Hx.
Qed.

Lemma entry_lt_irrefl {image : Type} (e : option string * Z * list image) : ¬ entry_lt e e.
Proof. intros [[_ Hne]|[_ Hlt]]; [done|lia]. Qed.

Lemma entry_lt_asym {image : Type} (e1 e2 : option string * Z * list image) :
  entry_lt e1 e2 → entry_lt e2 e1 → False.
Proof.
  intros [[Hle Hne]|[Heq Hlt]] [[Hle' Hne']|[Heq' Hlt']]; try congruence; [|lia].
  apply Hne. by apply (anti_symm key_le).
Qed.

Section Buckets.

Context {image : Type}.
Implicit Types (wi : gmap (option string) (gmap Z (list image))).

Lemma worker_tensors_entries wi :
  worker_tensors wi
  = match sorted_worker_ids wi with
    | Some _ => Some (bucket_entries wi).*2
    | None => None
    end.
Proof.
  unfold worker_tensors, tensor.
  destruct (sorted_worker_ids wi) as [ids|] eqn:Hids; simpl; [|done].
  apply sorted_worker_ids_Some in Hids as ->. f_equal.
  unfold bucket_entries. rewrite fmap_bind_list.
  apply list_bind_ext; [|done]. intros w. rewrite fmap_bind_list.
  by apply list_bind_ext.
Qed.

Lemma elem_of_bucket_entries wi w i t :
  (w, i, t) ∈ bucket_entries wi ↔ ∃ m, wi !! w = Some m ∧ m !! i = Some t.
Proof.
  unfold bucket_entries. rewrite list_elem_of_bind. split.
  - intros (w' & Hin & Hw'). apply list_elem_of_bind in Hin as (i' & Hin & Hi').
    apply list_elem_of_singleton in Hin. simplify_eq.
    apply sorted_keys_spec in Hw' as [m Hm].
    rewrite (lookup_total_correct _ _ _ Hm) in Hi' |- *.
    apply sorted_indices_spec in Hi' as [t Ht].
    rewrite (lookup_total_correct _ _ _ Ht). eauto.
  - intros (m & Hm & Ht). exists w. split; [|apply sorted_keys_spec; eauto].
    apply list_elem_of_bind. exists i.
    rewrite (lookup_total_correct _ _ _ Hm), (lookup_total_correct _ _ _ Ht).
    split; [by apply list_elem_of_singleton|]. apply sorted_indices_spec; eauto.
Qed.

Lemma bucket_entries_sorted wi : StronglySorted entry_lt (bucket_entries wi).
Proof.
  unfold bucket_entries.
  apply (StronglySorted_bind (λ x y, key_le x y ∧ x ≠ y)).
  - apply sorted_keys_spec.
  - intros w _. apply (StronglySorted_bind (λ x y, x ≤ y ∧ x ≠ y)).
    + apply sorted_indices_spec.
    + intros i _. repeat constructor.
    + intros i1 i2 e1 e2 [Hle Hne] ->%list_elem_of_singleton ->%list_elem_of_singleton.
      right. simpl. split; [done|lia].
  - intros w1 w2 e1 e2 Hlt (i1 & ->%list_elem_of_singleton & _)%list_elem_of_bind
      (i2 & ->%list_elem_of_singleton & _)%list_elem_of_bind.
    by left.
Qed.

(** A strictly increasing list holds each key once. *)
Lemma bucket_entries_keys_NoDup wi : NoDup (bucket_entries wi).*1.
Proof.
  generalize (bucket_entries_sorted wi).
  induction 1 as [|e l Hl IH He]; [constructor|].
  rewrite fmap_cons. apply NoDup_cons. split; [|done].
  intros (e' & Heq & Hin)%list_elem_of_fmap.
  rewrite Forall_forall in He. specialize (He e' Hin).
  destruct e as [[w i] t], e' as [[w' i'] t']. simpl in *. simplify_eq.
  destruct He as [[_ Hne]|[_ Hlt]]; simpl in *; [done|lia].
Qed.

End Buckets.

(** * Properties of the job-queue table *)

Section CollectorFacts.

Context {image : Type} (cat_compatible : list (list image) → bool).

Implicit Types (jobs : gmap string (list (@fragment image))).
Implicit Types (cs : @CollectionState image) (f item : @fragment image).
Implicit Types (sched : list (@event image)) (images : list image).

Lemma truthy_true (s : string) : s ≠ "" → truthy s = true.
Proof. intros Hs. unfold truthy. by apply bool_decide_eq_true. Qed.

Lemma prepare_keeps_queue j j' jobs q :
  jobs !! j = Some q → (prepare_job_endpoint j' jobs).2 !! j = Some q.
Proof.
  intros Hq. unfold prepare_job_endpoint.
  destruct (truthy j'); simpl; [|exact Hq].
  destruct (jobs !! j') eqn:Hj'; simpl; [exact Hq|].
  rewrite lookup_insert_ne; [exact Hq|]. intros ->. congruence.
Qed.

Lemma serve_keeps_queue j jobs req :
  is_Some (jobs !! j) → is_Some ((serve jobs req) !! j).
Proof.
  intros Hq. unfold serve, job_complete_endpoint.
  destruct (truthy (req_job req)); [|by destruct (req_image req)].
  destruct (req_image req); simpl; [exact Hq..|].
  destruct (jobs !! req_job req) eqn:Hr; simpl; [|exact Hq].
  destruct (req_index req); simpl; [|exact Hq|];
    (destruct (decide (req_job req = j)) as [->|];
     [rewrite lookup_insert_eq; eauto | by rewrite lookup_insert_ne]).
Qed.

Lemma foldl_serve_keeps_queue j (raced : list (@submit_request image)) jobs :
  is_Some (jobs !! j) → is_Some (foldl serve jobs raced !! j).
Proof.
  revert jobs. induction raced as [|r raced IH]; intros jobs Hq; simpl; [done|].
  by apply IH, serve_keeps_queue.
Qed.

(** Nothing that happens during the loop removes the job's queue. *)
Lemma collect_loop_keeps_queue j n sched jobs cs :
  is_Some ((collect_loop j n sched jobs cs).1.2 !! j).
Proof.
  revert jobs cs. induction sched as [|ev sched IH]; intros jobs cs; simpl;
    destruct (run_queue n (default [] (jobs !! j)) cs) as [q' cs'];
    destruct (loop_guard n cs'); simpl;
    try (rewrite lookup_insert_eq; by eauto).
  - unfold timeout_drain. rewrite lookup_insert_eq. simpl.
    rewrite lookup_insert_eq. eauto.
  - destruct ev as [j'|req|raced].
    + apply IH.
    + apply IH.
    + unfold timeout_drain.
      destruct (foldl_serve_keeps_queue j raced (<[j:=q']> jobs)) as [q Hq].
      { rewrite lookup_insert_eq. eauto. }
      rewrite Hq. simpl. rewrite lookup_insert_eq. eauto.
Qed.

(** The two assignments of [store_fragment] amount to one update of the
    worker's bucket. *)
Lemma worker_images_store f cs :
  worker_images (store_fragment f cs)
  = <[worker_id f := <[image_index f := frag_tensor f]>
                       (default ∅ (worker_images cs !! worker_id f))]> (worker_images cs).
Proof.
  unfold store_fragment. simpl.
  destruct (worker_images cs !! worker_id f) as [m|] eqn:Hm; simpl.
  - by rewrite (lookup_total_correct _ _ _ Hm).
  - rewrite lookup_total_insert_eq. by rewrite insert_insert_eq.
Qed.

Lemma workers_done_store f cs :
  workers_done (store_fragment f cs)
  = if is_last f then {[worker_id f]} ∪ workers_done cs else workers_done cs.
Proof. done. Qed.

Lemma workers_done_store_size f cs :
  (size (workers_done (store_fragment f cs)) ≤ S (size (workers_done cs)))%nat.
Proof.
  rewrite workers_done_store. destruct (is_last f); [|lia].
  rewrite size_union_alt, size_singleton.
  assert (workers_done cs ∖ {[worker_id f]} ⊆ workers_done cs) as Hsub.
  { intros x Hx. by apply elem_of_difference in Hx as [? _]. }
  apply subseteq_size in Hsub. lia.
Qed.

Lemma loop_guard_true n cs :
  loop_guard n cs = true ↔ (size (workers_done cs) < n)%nat.
Proof. unfold loop_guard. apply bool_decide_eq_true. Qed.

Lemma loop_guard_false n cs :
  loop_guard n cs = false ↔ (n ≤ size (workers_done cs))%nat.
Proof. unfold loop_guard. rewrite bool_decide_eq_false. lia. Qed.

(** The queued iterations stop with the guard false or the queue empty, and
    never let the done set outgrow the number of expected workers. *)
Lemma run_queue_spec n q cs :
  (size (workers_done cs) ≤ n)%nat →
  (size (workers_done (run_queue n q cs).2) ≤ n)%nat ∧
  (loop_guard n (run_queue n q cs).2 = true → (run_queue n q cs).1 = []).
Proof.
  revert cs. induction q as [|f q IH]; intros cs Hcs; simpl.
  - destruct (loop_guard n cs) eqn:Hg; simpl; [done|]. split; [done|congruence].
  - destruct (loop_guard n cs) eqn:Hg; simpl.
    + apply IH. apply loop_guard_true in Hg.
      pose proof (workers_done_store_size f cs). lia.
    + split; [done|congruence].
Qed.

Lemma collect_loop_all_done j n sched jobs cs jobs' cs' :
  (size (workers_done cs) ≤ n)%nat →
  collect_loop j n sched jobs cs = (AllDone, jobs', cs') →
  size (workers_done cs') = n.
Proof.
  revert jobs cs. induction sched as [|ev sched IH]; intros jobs cs Hcs; simpl;
    pose proof (run_queue_spec n (default [] (jobs !! j)) cs Hcs) as [Hle _];
    destruct (run_queue n (default [] (jobs !! j)) cs) as [q1 cs1];
    destruct (loop_guard n cs1) eqn:Hg; simpl in *.
  - destruct (timeout_drain _ _ _); congruence.
  - intros [= <- <-]. apply loop_guard_false in Hg. lia.
  - destruct ev as [j'|req|raced]; [by apply IH..|].
    destruct (timeout_drain _ _ _); congruence.
  - intros [= <- <-]. apply loop_guard_false in Hg. lia.
Qed.

(** C2, as amended: the loop ends without a timeout only when the number of
    distinct worker ids that sent a last fragment equals the number of
    expected worker ids; the ids themselves are compared nowhere, so the two
    sets are equal when, in addition, every worker that sent a last fragment
    is an expected one and no expected id is listed twice. *)
Theorem collect_all_done_counts j enabled sched jobs jobs' cs :
  collect j enabled sched jobs = (AllDone, jobs', cs) →
  size (workers_done cs) = length enabled ∧
  (NoDup enabled → workers_done cs ⊆ list_to_set (Some <$> enabled) →
   workers_done cs = list_to_set (Some <$> enabled)).
Proof.
  intros Hc. unfold collect in Hc.
  apply collect_loop_all_done in Hc;
    [|change (workers_done empty_collection) with (∅ : gset (option string));
      rewrite size_empty; lia].
  split; [done|]. intros Hnd Hsub.
  apply set_subseteq_size_eq; [done|].
  rewrite size_list_to_set by (by apply (NoDup_fmap_2 Some)).
  rewrite length_fmap. lia.
Qed.

(** X19: a collect call in master mode raises [TypeError] exactly when it
    has bucketed a fragment without worker id beside a fragment with one.
    Otherwise the batch it returns is the master's images in their order
    followed by the bucketed payloads, the buckets read in strictly
    increasing order of (worker id as a string, image index); when torch
    refuses to concatenate them the call falls back to the master's images
    alone. *)
Theorem collect_order images j url w ws bs wid sched jobs :
  let wi := worker_images (collect j (w :: ws) sched jobs).2 in
  let r := execute cat_compatible images j false url (w :: ws) bs wid sched jobs in
  ∃ entries : list (option string * Z * list image),
    StronglySorted entry_lt entries ∧
    (∀ w' i t, (w', i, t) ∈ entries ↔ ∃ m, wi !! w' = Some m ∧ m !! i = Some t) ∧
    (out_images r = None ↔ is_Some (wi !! None) ∧ ∃ w', is_Some (wi !! Some w')) ∧
    (out_images r ≠ None →
       out_images r
       = Some (if cat_compatible (((λ img, [img]) <$> images) ++ entries.*2)
               then images ++ concat entries.*2
               else images)).
Proof.
  intros wi r.
  exists (bucket_entries wi).
  split; [apply bucket_entries_sorted|]. split; [intros; apply elem_of_bucket_entries|].
  unfold r, wi, execute. simpl.
  destruct (collect j (w :: ws) sched jobs) as [[ex jobs'] cs]. simpl.
  unfold ordered_tensors. rewrite worker_tensors_entries.
  destruct (sorted_worker_ids _) as [ids|] eqn:Hids; simpl.
  - assert (¬ (is_Some (worker_images cs !! None)
               ∧ ∃ w', is_Some (worker_images cs !! Some w'))) as Hok.
    { intros Hraise. apply sorted_worker_ids_None in Hraise.
      unfold tensor in *. congruence. }
    unfold torch_cat. destruct (cat_compatible _); simpl.
    + split; [by split|]. intros _. by rewrite concat_app, concat_singletons.
    + by split.
  - split; [|done]. split; [|done]. intros _. by apply sorted_worker_ids_None.
Qed.

(** *** Fragments delivered more than once *)

Lemma store_absorbs f cs : absorbed f (store_fragment f cs).
Proof.
  split.
  - rewrite worker_images_store. eexists. rewrite lookup_insert_eq.
    split; [done|]. by rewrite lookup_insert_eq.
  - rewrite workers_done_store. intros ->. set_solver.
Qed.


Lemma absorbed_store_other f g cs :
  agrees f g → absorbed f cs → absorbed f (store_fragment g cs).
Proof.
  intros Hag [(m & Hm & Ht) Hdone]. split.
  - rewrite worker_images_store.
    destruct (decide (worker_id g = worker_id f)) as [Hw|Hw].
    + rewrite Hw, lookup_insert_eq, Hm. simpl. eexists. split; [done|].
      destruct (decide (image_index g = image_index f)) as [Hi|Hi].
      * rewrite Hi, lookup_insert_eq. f_equal. by apply Hag.
      * by rewrite lookup_insert_ne.
    + rewrite lookup_insert_ne by done. eauto.
  - intros Hl. rewrite workers_done_store. specialize (Hdone Hl).
    destruct (is_last g); set_solver.
Qed.

Lemma foldl_store_absorbed f (fs : list (@fragment image)) cs :
  Forall (agrees f) fs → absorbed f cs →
  absorbed f (foldl (λ acc item, store_fragment item acc) cs fs).
Proof.
  intros Hfs. revert cs. induction Hfs as [|g fs Hg Hfs IH]; intros cs Hf; simpl;
    [done|]. by apply IH, absorbed_store_other.
Qed.

Lemma run_queue_guard n q cs :
  loop_guard n (run_queue n q cs).2 = true → (run_queue n q cs).1 = [].
Proof.
  revert cs. induction q as [|f q IH]; intros cs; simpl;
    destruct (loop_guard n cs) eqn:Hg; simpl; try done; try congruence.
  apply IH.
Qed.









(** C3, as amended: a collect call in master mode with at least one
    expected worker leaves the job-queue table without an entry for its job
    id, whether the loop ended because enough workers were done or because
    a wait timed out, and whether the call then returns or raises; the
    entries of the other jobs are as the loop left them. *)
Theorem collect_deletes_queue images j url w ws bs wid sched jobs :
  let r := execute cat_compatible images j false url (w :: ws) bs wid sched jobs in
  out_jobs r !! j = None ∧
  (∀ j', j' ≠ j → out_jobs r !! j' = (collect j (w :: ws) sched jobs).1.2 !! j').
Proof.
  intros r. unfold r, execute. simpl.
  destruct (collect j (w :: ws) sched jobs) as [[ex jobs'] cs] eqn:Hc.
  assert (is_Some (jobs' !! j)) as [q Hq].
  { pose proof (collect_loop_keeps_queue j (length (w :: ws)) sched
                  (ensure_queue j jobs) empty_collection) as Hk.
    unfold collect in Hc. rewrite Hc in Hk. exact Hk. }
  rewrite Hq. simpl.
  assert (∀ r0 : @outcome image, out_jobs r0 = delete j jobs' →
            out_jobs r0 !! j = None
            ∧ ∀ j', j' ≠ j → out_jobs r0 !! j' = jobs' !! j') as Hdel.
  { intros r0 ->. split; [apply lookup_delete_eq|].
    intros j' Hne. by apply lookup_delete_ne. }
  apply Hdel. destruct (ordered_tensors _ _); [|done].
  by destruct (torch_cat _ _).
Qed.

(** C5: a submission for a job that has no queue is answered "job not
    found" and changes nothing; one for a job that has a queue is put at
    the end of that queue. *)
Theorem submit_unknown_job_noop j f jobs :
  j ≠ "" →
  (jobs !! j = None →
     job_complete_endpoint (fragment_request j f) jobs = (JobNotFound, jobs)) ∧
  (∀ q, jobs !! j = Some q →
     job_complete_endpoint (fragment_request j f) jobs
       = (Success, <[j := q ++ [f]]> jobs)) ∧
  (∀ req, jobs !! req_job req = None → (job_complete_endpoint req jobs).2 = jobs).
Proof.
  intros Hj. unfold job_complete_endpoint. simpl. rewrite (truthy_true _ Hj).
  split; [|split].
  - by intros ->.
  - intros q ->. by destruct f.
  - intros req Hreq. destruct (truthy (req_job req)); [|by destruct (req_image req)].
    destruct (req_image req); [done..|]. by rewrite Hreq.
Qed.

(** C9: with an empty job id, or with pass_through set, [run] returns its
    input images and leaves the job-queue table as it found it. *)
Theorem run_pass_through images j is_worker url enabled bs wid pt sched jobs :
  run cat_compatible images "" is_worker url enabled bs wid pt sched jobs
    = Outcome (Some images) jobs [] ∧
  run cat_compatible images j is_worker url enabled bs wid true sched jobs
    = Outcome (Some images) jobs [].
Proof.
  split; unfold run; simpl; [done|].
  by rewrite orb_true_r.
Qed.

(** C10: in master mode with an empty list of expected workers, [execute]
    returns the master's images at once and the job-queue table is the one
    it found, a queue prepared for the job id included. *)
Theorem execute_no_workers images j url bs wid sched jobs :
  execute cat_compatible images j false url [] bs wid sched jobs
    = Outcome (Some images) jobs [] ∧
  (∀ q, jobs !! j = Some q →
     out_jobs (execute cat_compatible images j false url [] bs wid sched jobs) !! j = Some q).
Proof. split; [done|]. intros q Hq. exact Hq. Qed.

End CollectorFacts.

(** * Properties of the worker process manager *)

Section ManagerFacts.

Implicit Types (os : OS) (st : Manager) (saved : gmap string SavedProcess).

Lemma find_worker (workers : list WorkerConfig) (worker : WorkerConfig) :
  worker ∈ workers →
  ∃ w, List.find (λ w, bool_decide (cfg_id w = cfg_id worker)) workers = Some w.
Proof.
  induction 1 as [worker workers|worker w' workers Hin IH]; simpl.
  - rewrite bool_decide_eq_true_2 by done. eauto.
  - destruct (bool_decide (cfg_id w' = cfg_id worker)); eauto.
Qed.

(** C6: launching a worker whose id is managed and whose process is alive
    answers "already running" with the pid and log file on record, starts
    nothing and leaves the manager as it was; so does a second launch. *)
Theorem launch_already_running workers env os worker st proc_info :
  cfg_id worker ≠ "" →
  worker ∈ workers →
  processes st !! cfg_id worker = Some proc_info →
  still_running os proc_info = true →
  launch_worker_endpoint workers env os (cfg_id worker) st
    = (AlreadyRunning (pid proc_info) (log_file proc_info), st) ∧
  ∀ env' os', still_running os' proc_info = true →
    launch_worker_endpoint workers env' os' (cfg_id worker)
      (launch_worker_endpoint workers env os (cfg_id worker) st).2
    = (AlreadyRunning (pid proc_info) (log_file proc_info), st).
Proof.
  intros Hid Hin Hst Hrun.
  assert (∀ env' os', still_running os' proc_info = true →
            launch_worker_endpoint workers env' os' (cfg_id worker) st
            = (AlreadyRunning (pid proc_info) (log_file proc_info), st)) as Hone.
  { intros env' os' Hrun'. unfold launch_worker_endpoint.
    rewrite (truthy_true _ Hid). destruct (find_worker _ _ Hin) as [w ->].
    rewrite Hst. unfold still_running, _is_process_running in *.
    destruct (process proc_info); by rewrite Hrun'. }
  split; [by apply Hone|]. intros env' os' Hrun'.
  rewrite (Hone env os Hrun). simpl. by apply Hone.
Qed.

Lemma evict_lookup worker_id os st :
  processes (save_processes os (evict worker_id st)) !! worker_id = None.
Proof. simpl. apply lookup_delete_eq. Qed.

(** C7, as amended: a stop that reports failure for a managed worker
    ("Failed to stop worker process" for a restored entry whose tree kill
    fails, "Error stopping worker" when the fallback termination raises)
    leaves the manager as it was, the entry still on record; the entry is
    removed when the call reports success or that the worker had already
    stopped, and a failed tree kill on a worker with a live handle is
    followed by the fallback and reported as success. *)
Theorem stop_error_keeps_entry os worker_id st proc_info :
  processes st !! worker_id = Some proc_info →
  (stop_error (stop_worker os worker_id st).1 →
     (stop_worker os worker_id st).2 = st
     ∧ processes (stop_worker os worker_id st).2 !! worker_id = Some proc_info) ∧
  (¬ stop_error (stop_worker os worker_id st).1 →
     processes (stop_worker os worker_id st).2 !! worker_id = None) ∧
  (process proc_info = None → _kill_process_tree os (pid proc_info) = false →
     (stop_worker os worker_id st).1 = (false, "Failed to stop worker process")) ∧
  (∀ p, process proc_info = Some p → popen_poll os p = None →
     _kill_process_tree os (pid proc_info) = false → terminate_process os p = None →
     (stop_worker os worker_id st).1 = (true, "Worker stopped (fallback)")).
Proof.
  intros Hst. unfold stop_worker, stop_error. rewrite Hst.
  split; [|split; [|split]].
  - destruct (process proc_info) as [p|].
    + destruct (popen_poll os p); simpl; [by intros (_ & _ & ?)|].
      destruct (_kill_process_tree os (pid proc_info)); simpl; [by intros [? _]|].
      destruct (terminate_process os p); simpl; [done|by intros [? _]].
    + destruct (_kill_process_tree os (pid proc_info)); simpl; [by intros [? _]|done].
  - intros Hne. destruct (process proc_info) as [p|].
    + destruct (popen_poll os p); [apply evict_lookup|].
      destruct (_kill_process_tree os (pid proc_info)); [apply evict_lookup|].
      destruct (terminate_process os p) as [e|]; [|apply evict_lookup].
      destruct Hne. simpl. repeat split; intros Heq; vm_compute in Heq; discriminate.
    + destruct (_kill_process_tree os (pid proc_info)); [apply evict_lookup|].
      destruct Hne. simpl. by repeat split.
  - intros Hp Hk. by rewrite Hp, Hk.
  - intros p Hp Hpoll Hk Ht. by rewrite Hp, Hpoll, Hk, Ht.
Qed.

Lemma load_lookup os saved (procs : gmap string ProcInfo) worker_id :
  map_fold (load_step os) procs saved !! worker_id
  = match saved !! worker_id with
    | Some e =>
        match saved_pid e with
        | Some pid =>
            if bool_decide (pid ≠ 0) && is_process_alive os pid
            then Some (restored pid e) else procs !! worker_id
        | None => procs !! worker_id
        end
    | None => procs !! worker_id
    end.
Proof.
  revert worker_id.
  apply (map_fold_weak_ind (λ r m, ∀ w, r !! w = match m !! w with
    | Some e =>
        match saved_pid e with
        | Some pid =>
            if bool_decide (pid ≠ 0) && is_process_alive os pid
            then Some (restored pid e) else procs !! w
        | None => procs !! w
        end
    | None => procs !! w
    end)).
  - intros w. by rewrite lookup_empty.
  - intros i x m r Hi IH w. unfold load_step, _is_process_running.
    destruct (decide (i = w)) as [->|Hne].
    + rewrite lookup_insert_eq. specialize (IH w). rewrite Hi in IH.
      destruct (saved_pid x) as [pid0|]; [|done].
      destruct (bool_decide (pid0 ≠ 0) && is_process_alive os pid0); [|done].
      by rewrite lookup_insert_eq.
    + rewrite (lookup_insert_ne m) by done. rewrite <-IH.
      destruct (saved_pid x) as [pid0|]; [|done].
      destruct (bool_decide (pid0 ≠ 0) && is_process_alive os pid0); [|done].
      by rewrite lookup_insert_ne.
Qed.

Lemma init_lookup os saved worker_id :
  processes (init os saved) !! worker_id
  = e ← saved !! worker_id;
    pid ← saved_pid e;
    if bool_decide (pid ≠ 0) && is_process_alive os pid
    then Some (restored pid e) else None.
Proof.
  unfold init, load_processes. simpl.
  rewrite load_lookup, lookup_empty.
  destruct (saved !! worker_id) as [e|]; simpl; [|done].
  by destruct (saved_pid e).
Qed.

Lemma load_restored os saved :
  (∀ worker_id e pid,
     saved !! worker_id = Some e → saved_pid e = Some pid → pid ≠ 0 →
     is_process_alive os pid = true →
     processes (init os saved) !! worker_id = Some (restored pid e)
     ∧ process (restored pid e) = None) ∧
  (∀ worker_id e pid,
     saved !! worker_id = Some e → saved_pid e = Some pid →
     is_process_alive os pid = false →
     processes (init os saved) !! worker_id = None) ∧
  (∀ worker_id proc_info,
     processes (init os saved) !! worker_id = Some proc_info →
     ∃ e pid, saved !! worker_id = Some e ∧ saved_pid e = Some pid
              ∧ is_process_alive os pid = true ∧ proc_info = restored pid e) ∧
  (∀ dead live e1 e2 pid1 pid2,
     dead ≠ live → saved = {[dead := e1; live := e2]} →
     saved_pid e1 = Some pid1 → saved_pid e2 = Some pid2 → pid2 ≠ 0 →
     is_process_alive os pid1 = false → is_process_alive os pid2 = true →
     processes (init os saved) = {[live := restored pid2 e2]}).
Proof.
  split; [|split; [|split]].
  - intros w e pid0 Hw Hp Hne Ha. rewrite init_lookup, Hw. simpl. rewrite Hp. simpl.
    by rewrite bool_decide_eq_true_2, Ha.
  - intros w e pid0 Hw Hp Ha. rewrite init_lookup, Hw. simpl. rewrite Hp. simpl.
    by rewrite Ha, andb_false_r.
  - intros w p. rewrite init_lookup.
    destruct (saved !! w) as [e|]; simpl; [|done].
    destruct (saved_pid e) as [pid0|] eqn:Hp; simpl; [|done].
    destruct (bool_decide (pid0 ≠ 0)); simpl; [|done].
    destruct (is_process_alive os pid0) eqn:Ha; [|done].
    intros [= <-]. by exists e, pid0.
  - intros dead live e1 e2 pid1 pid2 Hne -> Hp1 Hp2 Hnz Ha1 Ha2.
    apply map_eq. intros w. rewrite init_lookup.
    destruct (decide (w = live)) as [->|Hl].
    + rewrite lookup_insert_ne, lookup_singleton_eq by done. simpl.
      rewrite Hp2. simpl. by rewrite bool_decide_eq_true_2, Ha2, lookup_singleton_eq.
    + rewrite (lookup_singleton_ne live) by done.
      destruct (decide (w = dead)) as [->|Hd].
      * rewrite lookup_insert_eq. simpl. rewrite Hp1. simpl.
        by rewrite Ha1, andb_false_r.
      * by rewrite lookup_insert_ne, lookup_singleton_ne.
Qed.

(** C8: the table a manager starts with holds, of the saved entries, those
    whose pid is that of a live process, each rebuilt with the saved pid,
    start time, configuration and log file and without a process handle,
    and nothing else; an entry whose pid is dead is left out and loading
    goes on. *)
Theorem load_keeps_live_entries os saved :
  (∀ worker_id e p,
     saved !! worker_id = Some e → saved_pid e = Some p → p ≠ 0 →
     is_process_alive os p = true →
     processes (init os saved) !! worker_id
     = Some {| pid := p;
               process := None;
               started_at := saved_started_at e;
               config := saved_config e;
               log_file := saved_log_file e;
               is_monitor := false;
               launching := false |}) ∧
  (∀ worker_id e p,
     saved !! worker_id = Some e → saved_pid e = Some p →
     is_process_alive os p = false →
     processes (init os saved) !! worker_id = None) ∧
  (∀ worker_id proc_info,
     processes (init os saved) !! worker_id = Some proc_info →
     ∃ e p, saved !! worker_id = Some e ∧ saved_pid e = Some p
            ∧ is_process_alive os p = true
            ∧ proc_info = {| pid := p;
                             process := None;
                             started_at := saved_started_at e;
                             config := saved_config e;
                             log_file := saved_log_file e;
                             is_monitor := false;
                             launching := false |}) ∧
  (∀ dead live e1 e2 p1 p2,
     dead ≠ live → saved = {[dead := e1; live := e2]} →
     saved_pid e1 = Some p1 → saved_pid e2 = Some p2 → p2 ≠ 0 →
     is_process_alive os p1 = false → is_process_alive os p2 = true →
     processes (init os saved)
     = {[live := {| pid := p2;
                    process := None;
                    started_at := saved_started_at e2;
                    config := saved_config e2;
                    log_file := saved_log_file e2;
                    is_monitor := false;
                    launching := false |}]}).
Proof.
  destruct (load_restored os saved) as (Hlive & Hdead & Honly & Htwo).
  split; [|split; [exact Hdead|split; [exact Honly|exact Htwo]]].
  intros worker_id e p Hw Hp Hne Ha. by destruct (Hlive worker_id e p Hw Hp Hne Ha).
Qed.

End ManagerFacts.

(** * More on the job-queue table *)

Section CollectorMore.

Context {image : Type} (cat_compatible : list (list image) → bool).

Implicit Types (jobs : gmap string (list (@fragment image))).
Implicit Types (cs : @CollectionState image) (f item : @fragment image).
Implicit Types (sched : list (@event image)) (images : list image).
Implicit Types (req : @submit_request image) (q fs : list (@fragment image)).

Lemma serve_queue_exact j jobs req q :
  jobs !! j = Some q →
  serve jobs req !! j = Some (q ++ served_fragments j req).
Proof.
  intros Hq. unfold serve, job_complete_endpoint, served_fragments, request_fragment.
  destruct (truthy (req_job req)); simpl;
    [|destruct (req_image req); simpl; by rewrite app_nil_r].
  case_bool_decide as Hj.
  - rewrite Hj. destruct (req_image req); simpl; rewrite ?app_nil_r; [done..|].
    rewrite Hq. destruct (req_index req); simpl;
      by rewrite ?lookup_insert_eq, ?app_nil_r.
  - destruct (req_image req); simpl; rewrite ?app_nil_r; [done..|].
    destruct (jobs !! req_job req); simpl; [|done].
    destruct (req_index req); simpl; by rewrite ?lookup_insert_ne.
Qed.

Lemma foldl_serve_queue_exact j (raced : list (@submit_request image)) jobs q :
  jobs !! j = Some q →
  foldl serve jobs raced !! j = Some (q ++ (raced ≫= served_fragments j)).
Proof.
  revert jobs q. induction raced as [|r raced IH]; intros jobs q Hq; simpl.
  - by rewrite app_nil_r.
  - rewrite (IH _ _ (serve_queue_exact j jobs r q Hq)). by rewrite app_assoc.
Qed.

Lemma run_queue_app n q1 q2 cs :
  run_queue n (q1 ++ q2) cs
  = if loop_guard n (run_queue n q1 cs).2
    then run_queue n q2 (run_queue n q1 cs).2
    else ((run_queue n q1 cs).1 ++ q2, (run_queue n q1 cs).2).
Proof.
  revert cs. induction q1 as [|f q1 IH]; intros cs; simpl.
  - destruct (loop_guard n cs) eqn:Hg; simpl; rewrite Hg; [done|].
    destruct q2; simpl; by rewrite Hg.
  - destruct (loop_guard n cs) eqn:Hg; simpl; [apply IH|by rewrite Hg].
Qed.

(** While the guard holds to the end, the queued iterations bucket every
    item. *)
Lemma run_queue_all n q cs :
  loop_guard n (run_queue n q cs).2 = true →
  (run_queue n q cs).2 = store_all cs q.
Proof.
  revert cs. induction q as [|f q IH]; intros cs; simpl;
    destruct (loop_guard n cs) eqn:Hg; simpl; try done; try congruence.
  apply IH.
Qed.

Lemma collect_loop_closed j n sched jobs cs q :
  jobs !! j = Some q →
  collect_loop j n sched jobs cs
  = let r := run_queue n (q ++ arrivals j sched) cs in
    if loop_guard n r.2
    then (TimedOut, (collect_loop j n sched jobs cs).1.2, store_all r.2 (raced_in j sched))
    else (AllDone, (collect_loop j n sched jobs cs).1.2, r.2).
Proof.
  revert jobs cs q. induction sched as [|ev sched IH]; intros jobs cs q Hq.
  - simpl. rewrite Hq, app_nil_r. simpl.
    pose proof (run_queue_guard n q cs) as Hnil.
    destruct (run_queue n q cs) as [q' cs']. simpl in *.
    destruct (loop_guard n cs') eqn:Hg; [|done].
    rewrite (Hnil eq_refl). unfold timeout_drain. by rewrite lookup_insert_eq.
  - simpl. rewrite Hq. simpl.
    pose proof (run_queue_guard n q cs) as Hnil.
    destruct ev as [j'|req|raced]; simpl.
    + rewrite run_queue_app.
      destruct (run_queue n q cs) as [q' cs']. simpl in *.
      destruct (loop_guard n cs') eqn:Hg; simpl; [|by rewrite Hg].
      rewrite (Hnil eq_refl).
      apply (IH _ cs' []). apply prepare_keeps_queue, lookup_insert_eq.
    + rewrite run_queue_app.
      destruct (run_queue n q cs) as [q' cs']. simpl in *.
      destruct (loop_guard n cs') eqn:Hg; simpl; [|by rewrite Hg].
      rewrite (Hnil eq_refl).
      apply (IH _ cs' (served_fragments j req)).
      by rewrite (serve_queue_exact j _ req [] (lookup_insert_eq _ _ _)).
    + rewrite app_nil_r.
      destruct (run_queue n q cs) as [q' cs']. simpl in *.
      destruct (loop_guard n cs') eqn:Hg; simpl; [|done].
      rewrite (Hnil eq_refl). unfold timeout_drain.
      by rewrite (foldl_serve_queue_exact j raced _ [] (lookup_insert_eq _ _ _)).
Qed.

Lemma ensure_queue_lookup j jobs :
  ensure_queue j jobs !! j = Some (default [] (jobs !! j)).
Proof.
  unfold ensure_queue. destruct (jobs !! j) as [q|] eqn:Hq; simpl; [done|].
  apply lookup_insert_eq.
Qed.

Lemma collect_closed j enabled sched jobs :
  let n := length enabled in
  let own := default [] (jobs !! j) ++ arrivals j sched in
  let r := run_queue n own empty_collection in
  (collect j enabled sched jobs).1.1
    = (if loop_guard n r.2 then TimedOut else AllDone) ∧
  (collect j enabled sched jobs).2
    = (if loop_guard n r.2 then store_all r.2 (raced_in j sched) else r.2).
Proof.
  intros n own r. unfold collect.
  pose proof (collect_loop_closed j n sched (ensure_queue j jobs) empty_collection
                _ (ensure_queue_lookup j jobs)) as Hc.
  fold n in Hc. simpl in Hc. fold own in Hc. fold r in Hc.
  fold n. rewrite Hc. by destruct (loop_guard n r.2).
Qed.

Lemma store_all_keys cs fs k :
  is_Some (worker_images (store_all cs fs) !! k) →
  is_Some (worker_images cs !! k) ∨ ∃ g, g ∈ fs ∧ worker_id g = k.
Proof.
  revert cs. induction fs as [|g fs IH]; intros cs; [by left|].
  change (store_all cs (g :: fs)) with (store_all (store_fragment g cs) fs).
  intros [H|(g' & Hg' & H)]%IH; [|right; exists g'; split; [by right|done]].
  rewrite worker_images_store in H.
  destruct (decide (worker_id g = k)) as [Hw|Hw].
  - right. exists g. split; [by left|done].
  - rewrite lookup_insert_ne in H by done. by left.
Qed.









(** X10: the loop reads nothing but the fragments of its own job, in the
    order in which they were queued: those pending when the call starts,
    then those served before the first wait that times out.  It buckets
    them one by one while fewer workers are done than expected; if that
    never stops, the wait times out and the fragments that raced in are
    bucketed as well, so a call that timed out has lost none of the
    fragments it was sent.  Prepare requests and the traffic of other jobs
    change nothing. *)
Theorem collect_reads_own_fragments j enabled sched jobs :
  let n := length enabled in
  let own := default [] (jobs !! j) ++ arrivals j sched in
  let r := run_queue n own empty_collection in
  (collect j enabled sched jobs).1.1
    = (if loop_guard n r.2 then TimedOut else AllDone) ∧
  (collect j enabled sched jobs).2
    = (if loop_guard n r.2 then store_all r.2 (raced_in j sched) else r.2) ∧
  ((collect j enabled sched jobs).1.1 = TimedOut →
     (collect j enabled sched jobs).2
     = store_all empty_collection (own ++ raced_in j sched)).
Proof.
  intros n own r. destruct (collect_closed j enabled sched jobs) as [Hex Hcs].
  fold n own r in Hex, Hcs. rewrite Hex, Hcs.
  destruct (loop_guard n r.2) eqn:Hg; simpl.
  - split; [done|]. split; [done|]. intros _.
    unfold store_all. rewrite foldl_app. f_equal.
    apply (run_queue_all n own empty_collection Hg).
  - split; [done|]. split; [done|]. by intros [=].
Qed.

(** X12: in worker mode [execute] returns its images and leaves the
    job-queue table alone; it sends one request per image, in order, the
    i-th carrying index i and the i-th image, and flags a request as the
    last one exactly when it is the final one; for an empty batch it sends
    nothing, so nothing tells the master that this worker is done. *)
Theorem worker_mode_posts images j url enabled bs w sched jobs :
  let r := execute cat_compatible images j true url enabled bs w sched jobs in
  out_images r = Some images ∧
  out_jobs r = jobs ∧
  length (out_posts r) = length images ∧
  (∀ i p, out_posts r !! i = Some p ↔
          ∃ img, images !! i = Some img
                 ∧ p = Post j url w i (bool_decide (S i = length images)) img) ∧
  (images = [] → out_posts r = []).
Proof.
  unfold execute. simpl. split; [done|]. split; [done|].
  split; [apply length_imap|]. split; [|by intros ->].
  intros i p. rewrite list_lookup_imap.
  assert (bool_decide (i = length images - 1)%nat
          = bool_decide (S i = length images)
          ∨ images !! i = None) as Hb.
  { destruct (images !! i) as [img|] eqn:Hi; [left|by right].
    apply lookup_lt_Some in Hi. apply bool_decide_ext. lia. }
  destruct (images !! i) as [img|] eqn:Hi; simpl.
  - destruct Hb as [->|?]; [|done]. split.
    + intros [= <-]. by exists img.
    + by intros (img' & [= <-] & ->).
  - split; [done|]. by intros (img' & ? & _).
Qed.

(** X13: [prepare_job_endpoint] refuses only the empty job id; it creates an
    empty queue for a job that has none and leaves an existing queue as it
    is, fragments included, so preparing a job again never loses what was
    submitted in between; it touches no other job, and preparing twice is
    preparing once. *)
Theorem prepare_job_keeps_pending j jobs :
  ((prepare_job_endpoint j jobs).1 = true ↔ j ≠ "") ∧
  (j ≠ "" → (prepare_job_endpoint j jobs).2 !! j = Some (default [] (jobs !! j))) ∧
  (j = "" → (prepare_job_endpoint j jobs).2 = jobs) ∧
  (∀ j', j' ≠ j → (prepare_job_endpoint j jobs).2 !! j' = jobs !! j') ∧
  prepare_job_endpoint j (prepare_job_endpoint j jobs).2 = prepare_job_endpoint j jobs.
Proof.
  unfold prepare_job_endpoint, truthy. case_bool_decide as Hj; simpl.
  - destruct (jobs !! j) as [q|] eqn:Hq; simpl.
    + rewrite Hq. by repeat split.
    + rewrite lookup_insert_eq. repeat split; try done.
      intros j' Hne. by apply lookup_insert_ne.
  - assert (j = "") as -> by (by destruct (decide (j = ""))).
    by repeat split.
Qed.

(** X14: [job_complete_endpoint] answers success exactly when it has put
    one fragment, the one the request describes, at the end of the queue of
    the job the request names; with any other answer the table is unchanged.
    It never removes or reorders what a queue holds and never touches
    another job.  A request without a job id or without an image is answered
    "missing data" and one whose image cannot be decoded "image processing
    error", both before the job is looked up. *)
Theorem job_complete_appends_or_nothing req jobs :
  let r := job_complete_endpoint req jobs in
  (r.1 = Success ↔
     ∃ q g, req_job req ≠ "" ∧ jobs !! req_job req = Some q
            ∧ request_fragment req = Some g) ∧
  (r.1 = Success →
     ∃ q g, jobs !! req_job req = Some q ∧ request_fragment req = Some g
            ∧ r.2 = <[req_job req := q ++ [g]]> jobs) ∧
  (r.1 ≠ Success → r.2 = jobs) ∧
  (∀ j', j' ≠ req_job req → r.2 !! j' = jobs !! j') ∧
  (req_job req = "" ∨ req_image req = NoImage → r.1 = MissingData) ∧
  (req_job req ≠ "" → req_image req = BadImage → r.1 = ImageProcessingError).
Proof.
  unfold job_complete_endpoint, request_fragment, truthy. simpl.
  case_bool_decide as Hj.
  - destruct (req_image req) as [| |t] eqn:Himg.
    + repeat split; try done; try (by intros (? & ? & ? & ? & ?)); auto.
    + repeat split; try done; try (by intros (? & ? & ? & ? & ?)); auto.
      by intros [?|?].
    + destruct (jobs !! req_job req) as [q|] eqn:Hq.
      * destruct (req_index req) as [| |i] eqn:Hidx; simpl.
        -- repeat split; try done; eauto 10.
           ++ intros j' Hne. by apply lookup_insert_ne.
           ++ by intros [?|?].
        -- repeat split; try done; try (by intros (? & ? & ? & ? & ?)).
           by intros [?|?].
        -- repeat split; try done; eauto 10.
           ++ intros j' Hne. by apply lookup_insert_ne.
           ++ by intros [?|?].
      * repeat split; try done; try (by intros (? & ? & ? & ? & ?)).
        by intros [?|?].
  - assert (req_job req = "") as Hj' by (by destruct (decide (req_job req = ""))).
    repeat split; try done; try (by intros (? & ? & ? & ? & ?)).
    all: by destruct (req_image req).
Qed.

Lemma serve_other j' jobs req :
  req_job req ≠ j' → serve jobs req !! j' = jobs !! j'.
Proof.
  intros Hne. unfold serve, job_complete_endpoint.
  destruct (truthy (req_job req)); [|by destruct (req_image req)].
  destruct (req_image req); [done..|].
  destruct (jobs !! req_job req); [|done].
  destruct (req_index req); simpl; by rewrite ?lookup_insert_ne.
Qed.

Lemma foldl_serve_other j' (raced : list (@submit_request image)) jobs :
  Forall (λ req, req_job req ≠ j') raced →
  foldl serve jobs raced !! j' = jobs !! j'.
Proof.
  intros Hr. revert jobs. induction Hr as [|r raced Hr _ IH]; intros jobs; [done|].
  simpl. by rewrite IH, serve_other.
Qed.

Lemma prepare_other j j' jobs :
  j ≠ j' → (prepare_job_endpoint j jobs).2 !! j' = jobs !! j'.
Proof.
  intros Hne. unfold prepare_job_endpoint.
  destruct (truthy j); [|done]. destruct (jobs !! j); [done|].
  by apply lookup_insert_ne.
Qed.

Lemma collect_loop_other j j' n sched jobs cs :
  j' ≠ j →
  Forall (λ ev, ¬ targets j' ev) sched →
  (collect_loop j n sched jobs cs).1.2 !! j' = jobs !! j'.
Proof.
  intros Hne Hs. revert jobs cs.
  induction Hs as [|ev sched Hev _ IH]; intros jobs cs; simpl;
    destruct (run_queue n (default [] (jobs !! j)) cs) as [q' cs'];
    destruct (loop_guard n cs'); simpl; try by rewrite lookup_insert_ne.
  - unfold timeout_drain. rewrite lookup_insert_eq. simpl.
    by rewrite !lookup_insert_ne.
  - destruct ev as [j0|req|raced]; simpl in Hev.
    + by rewrite IH, prepare_other, lookup_insert_ne.
    + by rewrite IH, serve_other, lookup_insert_ne.
    + unfold timeout_drain.
      assert (foldl serve (<[j:=q']> jobs) raced !! j' = jobs !! j') as Hf.
      { rewrite foldl_serve_other, lookup_insert_ne; [done..|].
        apply Forall_forall. intros r Hr Hj'. apply Hev, Exists_exists. eauto. }
      destruct (foldl serve (<[j:=q']> jobs) raced !! j); simpl; [|done].
      by rewrite lookup_insert_ne.
Qed.

(** X15: jobs do not interfere.  A collect call on one job leaves the queue
    of any other job as it was, unless the schedule itself holds a request
    for that job; and what the call returns depends on the table through
    the queue of its own job alone, and on the schedule through the
    fragments it delivers to that job alone. *)
Theorem collect_leaves_other_jobs images j url enabled bs wid sched jobs :
  (∀ j', j' ≠ j → Forall (λ ev, ¬ targets j' ev) sched →
     out_jobs (execute cat_compatible images j false url enabled bs wid sched jobs) !! j'
     = jobs !! j') ∧
  (∀ sched2 jobs2,
     jobs2 !! j = jobs !! j →
     arrivals j sched2 = arrivals j sched →
     raced_in j sched2 = raced_in j sched →
     out_images (execute cat_compatible images j false url enabled bs wid sched2 jobs2)
     = out_images (execute cat_compatible images j false url enabled bs wid sched jobs)).
Proof.
  split.
  - intros j' Hne Hs. unfold execute. simpl. case_bool_decide; [done|].
    pose proof (collect_loop_other j j' (length enabled) sched
                  (ensure_queue j jobs) empty_collection Hne Hs) as Hother.
    unfold collect.
    destruct (collect_loop j (length enabled) sched (ensure_queue j jobs)
                empty_collection) as [[ex jobs'] cs]. simpl in Hother.
    assert (jobs' !! j' = jobs !! j') as Hj'.
    { rewrite Hother. unfold ensure_queue.
      destruct (jobs !! j); [done|]. by apply lookup_insert_ne. }
    destruct (ordered_tensors _ _); [destruct (torch_cat _ _)|]; simpl;
      (destruct (jobs' !! j); [by rewrite lookup_delete_ne|done]).
  - intros sched2 jobs2 Hq Ha Hr. unfold execute. simpl. case_bool_decide; [done|].
    destruct (collect_closed j enabled sched jobs) as [_ Hcs].
    destruct (collect_closed j enabled sched2 jobs2) as [_ Hcs2].
    rewrite Hq, Ha, Hr, <-Hcs in Hcs2.
    destruct (collect j enabled sched jobs) as [[ex jobs'] cs].
    destruct (collect j enabled sched2 jobs2) as [[ex2 jobs2'] cs2].
    simpl in Hcs2. subst cs2.
    destruct (ordered_tensors _ _); [by destruct (torch_cat _ _)|done].
Qed.

(** *** Every expected worker delivers *)

Section Delivery.

Variable received : image → list image.

Lemma worker_posts_requests imgs j url enabled bs w sched jobs :
  post_request received
    <$> out_posts (execute cat_compatible imgs j true url enabled bs w sched jobs)
  = fragment_request j <$> worker_fragments received w imgs.
Proof.
  unfold execute, worker_fragments. simpl. rewrite !fmap_imap.
  by apply imap_ext.
Qed.

Lemma workers_done_store_all cs fs w :
  w ∈ workers_done (store_all cs fs) ↔
  w ∈ workers_done cs ∨ ∃ g, g ∈ fs ∧ worker_id g = w ∧ is_last g = true.
Proof.
  revert cs. induction fs as [|g fs IH]; intros cs.
  - simpl. split; [by left|]. intros [?|(g & Hg & _)]; [done|].
    by apply elem_of_nil in Hg.
  - change (store_all cs (g :: fs)) with (store_all (store_fragment g cs) fs).
    rewrite IH, workers_done_store. split.
    + intros [Hw|(g' & Hg' & Hw & Hl)].
      * destruct (is_last g) eqn:Hl; [|by left].
        apply elem_of_union in Hw as [Hw|Hw]; [|by left].
        apply elem_of_singleton in Hw. right. exists g. split; [by left|done].
      * right. exists g'. split; [by right|done].
    + intros [Hw|(g' & Hg' & Hw & Hl)].
      * left. destruct (is_last g); [|done]. apply elem_of_union. by right.
      * apply elem_of_cons in Hg' as [->|Hg'].
        -- left. rewrite Hl. apply elem_of_union. left. by apply elem_of_singleton.
        -- right. by exists g'.
Qed.

Lemma store_all_lookup_inv cs fs w i t :
  (∃ m, worker_images (store_all cs fs) !! w = Some m ∧ m !! i = Some t) →
  (∃ m, worker_images cs !! w = Some m ∧ m !! i = Some t)
  ∨ ∃ g, g ∈ fs ∧ worker_id g = w ∧ image_index g = i ∧ frag_tensor g = t.
Proof.
  revert cs. induction fs as [|g fs IH]; intros cs; [by left|].
  change (store_all cs (g :: fs)) with (store_all (store_fragment g cs) fs).
  intros [H|(g' & Hg' & H)]%IH; [|right; exists g'; split; [by right|done]].
  destruct H as (m & Hm & Ht). rewrite worker_images_store in Hm.
  destruct (decide (worker_id g = w)) as [Hw|Hw].
  - rewrite Hw, lookup_insert_eq in Hm. simplify_eq.
    destruct (decide (image_index g = i)) as [Hi|Hi].
    + rewrite Hi, lookup_insert_eq in Ht. simplify_eq.
      right. exists g. split; [by left|done].
    + rewrite lookup_insert_ne in Ht by done. left.
      destruct (worker_images cs !! worker_id g) as [m0|]; simpl in Ht; [eauto|].
      by rewrite lookup_empty in Ht.
  - rewrite lookup_insert_ne in Hm by done. left. eauto.
Qed.

Lemma store_all_lookup cs fs g :
  g ∈ fs →
  (∀ g', g' ∈ fs → agrees g g') →
  absorbed g (store_all cs fs).
Proof.
  intros Hg Hfun. apply list_elem_of_split in Hg as (before & after & ->).
  unfold store_all. rewrite foldl_app. simpl.
  apply foldl_store_absorbed; [|apply store_absorbs].
  apply Forall_forall. intros g' Hg'. apply Hfun.
  apply elem_of_app. right. by right.
Qed.

Lemma run_queue_prefixes n fs cs :
  (∀ p x rest, fs = p ++ x :: rest → loop_guard n (store_all cs p) = true) →
  run_queue n fs cs = ([], store_all cs fs).
Proof.
  revert cs. induction fs as [|g fs IH]; intros cs Hp; simpl.
  - by destruct (loop_guard n cs).
  - pose proof (Hp [] g fs eq_refl) as Hg. unfold store_all in Hg. simpl in Hg.
    rewrite Hg. apply IH.
    intros p x rest ->. apply (Hp (g :: p) x rest eq_refl).
Qed.

Section Interleaving.

Variable enabled : list string.
Variable batch : string → list image.
Variable gs : list (@fragment image).

Hypothesis enabled_NoDup : NoDup enabled.
Hypothesis batch_nonempty : ∀ w, w ∈ enabled → batch w ≠ [].
Hypothesis gs_by_worker :
  ∀ w, w ∈ enabled →
       filter (λ g, worker_id g = Some w) gs = worker_fragments received w (batch w).
Hypothesis gs_workers : ∀ g, g ∈ gs → ∃ w, w ∈ enabled ∧ worker_id g = Some w.

Lemma elem_of_worker_fragments w imgs g :
  g ∈ worker_fragments received w imgs ↔
  ∃ i img, imgs !! i = Some img
           ∧ g = Fragment (Some w) (Z.of_nat i) (received img)
                   (bool_decide (i = length imgs - 1)%nat).
Proof.
  unfold worker_fragments. rewrite elem_of_lookup_imap.
  split; intros (i & img & H1 & H2); by exists i, img.
Qed.

Lemma elem_of_gs g :
  g ∈ gs ↔
  ∃ w i img, w ∈ enabled ∧ batch w !! i = Some img
             ∧ g = Fragment (Some w) (Z.of_nat i) (received img)
                     (bool_decide (i = length (batch w) - 1)%nat).
Proof.
  split.
  - intros Hg. destruct (gs_workers g Hg) as (w & Hw & Hgw).
    assert (g ∈ filter (λ g', worker_id g' = Some w) gs) as Hf
      by by apply list_elem_of_filter.
    rewrite (gs_by_worker _ Hw) in Hf.
    apply elem_of_worker_fragments in Hf as (i & img & Hi & ->).
    by exists w, i, img.
  - intros (w & i & img & Hw & Hi & ->).
    assert (Fragment (Some w) (Z.of_nat i) (received img)
              (bool_decide (i = length (batch w) - 1)%nat)
            ∈ filter (λ g', worker_id g' = Some w) gs) as Hf.
    { rewrite (gs_by_worker _ Hw). apply elem_of_worker_fragments. eauto. }
    by apply list_elem_of_filter in Hf as [_ ?].
Qed.

Lemma gs_functional g g' : g ∈ gs → g' ∈ gs → agrees g g'.
Proof.
  intros (w & i & img & Hw & Hi & ->)%elem_of_gs
         (w' & i' & img' & Hw' & Hi' & ->)%elem_of_gs.
  unfold agrees. simpl. intros [= ->] Hii. apply Nat2Z.inj in Hii as ->.
  congruence.
Qed.

Lemma gs_done_all k :
  k ∈ workers_done (store_all empty_collection gs) ↔ ∃ w, k = Some w ∧ w ∈ enabled.
Proof.
  rewrite workers_done_store_all. split.
  - intros [Hw|(g & Hg & <- & _)]; [by apply not_elem_of_empty in Hw|].
    destruct (gs_workers g Hg) as (w & Hw & Hgw). by exists w.
  - intros (w & -> & Hw). right.
    destruct (batch w) as [|img0 imgs0] eqn:Hb; [by destruct (batch_nonempty w Hw)|].
    destruct (lookup_lt_is_Some_2 (img0 :: imgs0) (length (img0 :: imgs0) - 1))
      as [img Himg]; [simpl; lia|].
    exists (Fragment (Some w) (Z.of_nat (length (img0 :: imgs0) - 1)) (received img) true).
    split; [|done]. apply elem_of_gs.
    exists w, (length (img0 :: imgs0) - 1)%nat, img. rewrite Hb.
    split; [done|]. split; [done|]. by rewrite bool_decide_eq_true_2.
Qed.

Lemma gs_done_set :
  workers_done (store_all empty_collection gs) = list_to_set (Some <$> enabled).
Proof.
  apply set_eq. intros k. rewrite gs_done_all, elem_of_list_to_set, list_elem_of_fmap.
  split; intros (w & ? & ?); by exists w.
Qed.

(** Before the last fragment has been bucketed, the worker it comes from is
    not done. *)
Lemma gs_prefix_guard p x rest :
  gs = p ++ x :: rest →
  loop_guard (length enabled) (store_all empty_collection p) = true.
Proof.
  intros Hgs.
  destruct (exists_last (l:=x :: rest)) as (mid & y & Hy); [done|].
  rewrite Hy, app_assoc in Hgs.
  assert (y ∈ gs) as Hyin by (rewrite Hgs; apply elem_of_app; right; by left).
  destruct (gs_workers y Hyin) as (w0 & Hw0 & Hyw).
  assert (Some w0 ∉ workers_done (store_all empty_collection p)) as Hnot.
  { rewrite workers_done_store_all.
    intros [Hw|(g & Hg & Hgw & Hl)]; [by apply not_elem_of_empty in Hw|].
    pose proof (gs_by_worker w0 Hw0) as HF.
    rewrite Hgs, filter_app, filter_cons_True, filter_nil in HF by done.
    assert (g ∈ filter (λ g0, worker_id g0 = Some w0) (p ++ mid)) as Hgf.
    { apply list_elem_of_filter. split; [done|]. apply elem_of_app. by left. }
    apply list_elem_of_lookup in Hgf as [k Hk].
    pose proof (lookup_lt_Some _ _ _ Hk) as Hklt.
    assert (worker_fragments received w0 (batch w0) !! k = Some g) as Hk'.
    { rewrite <-HF. by apply lookup_app_l_Some. }
    assert (length (batch w0)
            = S (length (filter (λ g0, worker_id g0 = Some w0) (p ++ mid)))) as Hlen.
    { unfold worker_fragments in HF. apply (f_equal length) in HF.
      rewrite length_imap, length_app in HF. simpl in HF. lia. }
    unfold worker_fragments in Hk'. rewrite list_lookup_imap in Hk'.
    destruct (batch w0 !! k) as [img|]; simpl in Hk'; [|done].
    simplify_eq. simpl in Hl. apply bool_decide_eq_true in Hl. lia. }
  apply loop_guard_true.
  assert (workers_done (store_all empty_collection p)
          ⊆ list_to_set (Some <$> enabled) ∖ {[Some w0]}) as Hsub.
  { intros w Hw. apply elem_of_difference. split.
    - rewrite <-gs_done_set.
      apply workers_done_store_all in Hw as [Hw|(g & Hg & Hgw & Hl)];
        [by apply not_elem_of_empty in Hw|].
      apply workers_done_store_all. right. exists g. split; [|done].
      rewrite Hgs. apply elem_of_app. left. apply elem_of_app. by left.
    - intros ->%elem_of_singleton. done. }
  apply subseteq_size in Hsub.
  rewrite size_difference in Hsub
    by (apply singleton_subseteq_l, elem_of_list_to_set, list_elem_of_fmap;
        by exists w0).
  rewrite size_list_to_set, size_singleton, length_fmap in Hsub
    by (by apply (NoDup_fmap_2 Some)).
  assert (0 < length enabled)%nat; [|lia].
  destruct enabled; [by apply elem_of_nil in Hw0|simpl; lia].
Qed.

Lemma gs_done_size :
  size (workers_done (store_all empty_collection gs)) = length enabled.
Proof.
  rewrite gs_done_set, size_list_to_set by (by apply (NoDup_fmap_2 Some)).
  apply length_fmap.
Qed.

(** The loop buckets every fragment and then stops, whatever follows. *)
Lemma gs_run_queue extra :
  (run_queue (length enabled) (gs ++ extra) empty_collection).2
  = store_all empty_collection gs
  ∧ loop_guard (length enabled) (store_all empty_collection gs) = false.
Proof.
  assert (loop_guard (length enabled) (store_all empty_collection gs) = false) as Hg.
  { apply loop_guard_false. rewrite gs_done_size. lia. }
  split; [|done]. rewrite run_queue_app.
  rewrite (run_queue_prefixes _ gs empty_collection gs_prefix_guard). simpl.
  by rewrite Hg.
Qed.

Lemma worker_entries_sorted w imgs :
  StronglySorted entry_lt (worker_entries received w imgs).
Proof.
  unfold worker_entries.
  assert (∀ k, StronglySorted entry_lt
                 (imap (λ i img, (Some w, Z.of_nat (k + i), received img)) imgs)) as Hk.
  { induction imgs as [|img imgs' IH]; intros k; [constructor|].
    rewrite imap_cons. constructor.
    - rewrite (imap_ext _ (λ i img', (Some w, Z.of_nat (S k + i), received img')));
        [apply IH|]. intros i x _. simpl. do 2 f_equal. lia.
    - apply Forall_forall. intros e (i & img' & -> & _)%elem_of_lookup_imap.
      right. simpl. split; [done|lia]. }
  apply (Hk 0%nat).
Qed.

Lemma elem_of_worker_entries w imgs e :
  e ∈ worker_entries received w imgs ↔
  ∃ i img, imgs !! i = Some img ∧ e = (Some w, Z.of_nat i, received img).
Proof.
  unfold worker_entries. rewrite elem_of_lookup_imap.
  split; intros (i & img & H1 & H2); by exists i, img.
Qed.

(** The buckets, read in order, are the batches of the workers taken in the
    order of their ids. *)
Lemma gs_bucket_entries :
  bucket_entries (worker_images (store_all empty_collection gs))
  = w ← merge_sort String.le enabled; worker_entries received w (batch w).
Proof.
  apply (StronglySorted_unique_strong entry_lt).
  - intros e1 e2 _ _ H12 H21. by destruct (entry_lt_asym e1 e2).
  - apply bucket_entries_sorted.
  - apply (StronglySorted_bind (λ x y, String.le x y ∧ x ≠ y)).
    + apply StronglySorted_strict; [apply StronglySorted_merge_sort; apply _|].
      by rewrite merge_sort_Permutation.
    + intros w _. apply worker_entries_sorted.
    + intros w1 w2 e1 e2 [Hle Hne] (i1 & img1 & _ & ->)%elem_of_worker_entries
        (i2 & img2 & _ & ->)%elem_of_worker_entries.
      left. simpl. split; [done|congruence].
  - apply NoDup_Permutation.
    + apply (NoDup_fmap_1 fst), bucket_entries_keys_NoDup.
    + apply (StronglySorted_irrefl_NoDup entry_lt); [apply entry_lt_irrefl|].
      apply (StronglySorted_bind (λ x y, String.le x y ∧ x ≠ y)).
      * apply StronglySorted_strict; [apply StronglySorted_merge_sort; apply _|].
        by rewrite merge_sort_Permutation.
      * intros w _. apply worker_entries_sorted.
      * intros w1 w2 e1 e2 [Hle Hne] (i1 & img1 & _ & ->)%elem_of_worker_entries
          (i2 & img2 & _ & ->)%elem_of_worker_entries.
        left. simpl. split; [done|congruence].
    + intros [[w i] t]. rewrite elem_of_bucket_entries, list_elem_of_bind. split.
      * intros [(m & Hm & _)|(g & Hg & <- & <- & <-)]%store_all_lookup_inv.
        { unfold empty_collection in Hm. simpl in Hm.
          by rewrite lookup_empty in Hm. }
        apply elem_of_gs in Hg as (w & k & img & Hw & Hk & ->). simpl.
        exists w. split; [|by rewrite merge_sort_Permutation].
        apply elem_of_worker_entries. eauto.
      * intros (w' & (k & img & Hk & [= -> -> ->])%elem_of_worker_entries & Hw).
        rewrite merge_sort_Permutation in Hw.
        set (g := Fragment (Some w') (Z.of_nat k) (received img)
                    (bool_decide (k = length (batch w') - 1)%nat)).
        assert (g ∈ gs) as Hg by (apply elem_of_gs; by exists w', k, img).
        destruct (store_all_lookup empty_collection gs g Hg
                    (λ g' Hg', gs_functional g g' Hg Hg')) as [Habs _].
        exact Habs.
Qed.

(** No fragment comes without worker id, so [sorted] does not raise. *)
Lemma gs_sorted_worker_ids :
  sorted_worker_ids (worker_images (store_all empty_collection gs)) ≠ None.
Proof.
  intros [Hnone _]%sorted_worker_ids_None.
  apply store_all_keys in Hnone as [[m Hm]|(g & Hg & Hgw)].
  - unfold empty_collection in Hm. simpl in Hm. by rewrite lookup_empty in Hm.
  - destruct (gs_workers g Hg) as (w & _ & Hw). congruence.
Qed.

Lemma gs_worker_tensors :
  worker_tensors (worker_images (store_all empty_collection gs))
  = Some (w ← merge_sort String.le enabled; received <$> batch w).
Proof.
  rewrite worker_tensors_entries.
  pose proof gs_sorted_worker_ids as Hids.
  destruct (sorted_worker_ids _); [|done]. f_equal.
  rewrite gs_bucket_entries, fmap_bind_list.
  apply list_bind_ext; [|done]. intros w. unfold worker_entries.
  rewrite fmap_imap. by rewrite <-imap_const.
Qed.

End Interleaving.

Lemma request_fragment_of j f : request_fragment (fragment_request j f) = Some f.
Proof. by destruct f. Qed.

Lemma omap_requests j fs :
  omap request_fragment (fragment_request j <$> fs) = fs.
Proof.
  induction fs as [|g fs IH]; [done|].
  rewrite fmap_cons. destruct g. simpl. by f_equal.
Qed.

Lemma served_fragment_request j f :
  j ≠ "" → served_fragments j (fragment_request j f) = [f].
Proof.
  intros Hj. unfold served_fragments. rewrite request_fragment_of. simpl.
  by rewrite (truthy_true _ Hj), bool_decide_eq_true_2.
Qed.

Lemma arrivals_submits j fs tail :
  j ≠ "" →
  arrivals j ((EvSubmit <$> (fragment_request j <$> fs)) ++ tail)
  = fs ++ arrivals j tail.
Proof.
  intros Hj. induction fs as [|g fs IH]; [done|].
  rewrite !fmap_cons, <-!app_comm_cons. cbn [arrivals].
  by rewrite IH, served_fragment_request.
Qed.

Lemma filter_requests j w fs :
  filter (λ r, req_worker r = w) (fragment_request j <$> fs)
  = fragment_request j <$> filter (λ g, worker_id g = w) fs.
Proof.
  induction fs as [|g fs IH]; [done|]. rewrite fmap_cons.
  destruct (decide (worker_id g = w)) as [Hw|Hw].
  - rewrite (filter_cons_True _ (fragment_request j g)) by done.
    rewrite (filter_cons_True _ g) by done. by rewrite fmap_cons, IH.
  - rewrite (filter_cons_False _ (fragment_request j g)) by done.
    by rewrite (filter_cons_False _ g) by done.
Qed.

Lemma requests_fragments j (reqs : list (@submit_request image)) :
  (∀ r, r ∈ reqs → ∃ g, r = fragment_request j g) →
  ∃ fs, reqs = fragment_request j <$> fs.
Proof.
  induction reqs as [|r reqs IH]; intros Hr; [by exists []|].
  destruct (Hr r) as [g ->]; [by left|].
  destruct IH as [fs ->]; [intros r' Hr'; apply Hr; by right|].
  by exists (g :: fs).
Qed.

(** X11: every expected worker delivers.  Let each expected worker, its ids
    listed once each, send a batch that is not empty, in worker mode; let
    the master be served the requests of all of them, those of one worker in
    the order in which it sent them, interleaved in any way with those of
    the others, the queue being empty before.  Then the loop ends without a
    timeout as soon as the last request is served, whatever the schedule
    holds after it, and the call returns the master's images followed by
    the batches of the workers in the order of their ids, each batch in the
    order in which it was sent (or, when torch refuses the concatenation,
    the master's images alone). *)
Theorem all_workers_deliver images j url enabled bs wid
    (batch : string → list image) (reqs : list (@submit_request image)) tail jobs :
  j ≠ "" →
  NoDup enabled →
  default [] (jobs !! j) = [] →
  (∀ w, w ∈ enabled → batch w ≠ []) →
  (∀ w, w ∈ enabled →
     filter (λ r, req_worker r = Some w) reqs
     = post_request received
         <$> out_posts (execute cat_compatible (batch w) j true url enabled bs w [] jobs)) →
  (∀ r, r ∈ reqs → ∃ w, w ∈ enabled ∧ req_worker r = Some w) →
  let sched := (EvSubmit <$> reqs) ++ tail in
  let ordered := ((λ img, [img]) <$> images)
                 ++ (w ← merge_sort String.le enabled; received <$> batch w) in
  (collect j enabled sched jobs).1.1 = AllDone ∧
  out_images (execute cat_compatible images j false url enabled bs wid sched jobs)
  = Some (if cat_compatible ordered then concat ordered else images).
Proof.
  intros Hj Hnd Hq Hne Hby Hin sched ordered.
  assert (∀ w, w ∈ enabled →
            filter (λ r, req_worker r = Some w) reqs
            = fragment_request j <$> worker_fragments received w (batch w)) as Hby'.
  { intros w Hw. by rewrite (Hby w Hw), worker_posts_requests. }
  destruct (requests_fragments j reqs) as [fs ->].
  { intros r Hr. destruct (Hin r Hr) as (w & Hw & Hrw).
    assert (r ∈ filter (λ r', req_worker r' = Some w) reqs) as Hf
      by by apply list_elem_of_filter.
    rewrite (Hby' _ Hw) in Hf.
    apply list_elem_of_fmap in Hf as (g & -> & _). by exists g. }
  assert (∀ w, w ∈ enabled →
            filter (λ g, worker_id g = Some w) fs
            = worker_fragments received w (batch w)) as Hfs.
  { intros w Hw. specialize (Hby' w Hw). rewrite filter_requests in Hby'.
    apply (f_equal (omap request_fragment)) in Hby'.
    by rewrite !omap_requests in Hby'. }
  assert (∀ g, g ∈ fs → ∃ w, w ∈ enabled ∧ worker_id g = Some w) as Hfw.
  { intros g Hg. apply (Hin (fragment_request j g)).
    by apply list_elem_of_fmap_2. }
  destruct (collect_closed j enabled sched jobs) as [Hex Hcs].
  unfold sched in Hex, Hcs. rewrite Hq, arrivals_submits in Hex, Hcs by done.
  simpl in Hex, Hcs.
  destruct (gs_run_queue enabled batch fs Hnd Hne Hfs Hfw (arrivals j tail))
    as [Hrun Hg].
  rewrite Hrun, Hg in Hex, Hcs. split; [exact Hex|].
  unfold execute. simpl. case_bool_decide as Hlen.
  - destruct enabled; [|done]. simpl. unfold ordered. simpl.
    rewrite app_nil_r, concat_singletons. by destruct (cat_compatible _).
  - fold sched. fold sched in Hcs.
    destruct (collect j enabled sched jobs) as [[ex jobs'] cs]. simpl in Hcs.
    subst cs. unfold torch_cat, ordered_tensors.
    rewrite (gs_worker_tensors enabled batch fs Hnd Hfs Hfw). simpl.
    unfold ordered. by destruct (cat_compatible _).
Qed.

End Delivery.

End CollectorMore.

(** * The seed node and the address recommendation *)

Lemma split_on_nosep sep s : has_char sep s = false → split_on sep s = [s].
Proof.
  induction s as [|c s IH]; [done|]. simpl.
  intros [Hc Hs]%orb_false_iff. apply bool_decide_eq_false in Hc.
  rewrite decide_False by done. by rewrite (IH Hs).
Qed.

Lemma split_on_app sep a b :
  has_char sep a = false →
  split_on sep (a +:+ String sep b) = a :: split_on sep b.
Proof.
  induction a as [|c a IH].
  - intros _. change ("" +:+ String sep b) with (String sep b). simpl.
    by rewrite decide_True.
  - simpl. intros [Hc Ha]%orb_false_iff. apply bool_decide_eq_false in Hc.
    change (String c a +:+ String sep b) with (String c (a +:+ String sep b)).
    simpl. rewrite decide_False by done. by rewrite (IH Ha).
Qed.

Lemma prefix_app s1 s2 : String.prefix s1 (s1 +:+ s2) = true.
Proof.
  induction s1 as [|c s1 IH]; [by destruct s2|].
  change (String c s1 +:+ s2) with (String c (s1 +:+ s2)). simpl.
  by destruct (ascii_dec c c).
Qed.

Lemma prefix_127_not_192 ip :
  String.prefix "127." ip = true → String.prefix "192.168." ip = false.
Proof.
  destruct ip as [|a [|b ip]]; [done| |].
  - intros _. cbn [String.prefix]. by destruct (ascii_dec "1" a).
  - cbn [String.prefix]. destruct (ascii_dec "1" a); [|done].
    destruct (ascii_dec "2" b) as [<-|]; [|done]. intros _.
    by destruct (ascii_dec "9" "2").
Qed.

Section SeedFacts.

Variable py_int : string → option Z.

Lemma split_worker_id d rest :
  has_char "_" d = false →
  split_on "_" ("worker_" +:+ d) !! 1%nat = Some d
  ∧ split_on "_" ("worker_" +:+ d +:+ "_" +:+ rest) !! 1%nat = Some d.
Proof.
  intros Hd. split.
  - change ("worker_" +:+ d) with ("worker" +:+ String "_" d).
    rewrite split_on_app by done. by rewrite (split_on_nosep _ _ Hd).
  - change ("worker_" +:+ d +:+ "_" +:+ rest)
      with ("worker" +:+ String "_" (d +:+ String "_" rest)).
    rewrite split_on_app by done. by rewrite (split_on_app _ _ _ Hd).
Qed.

(** X16: the master keeps its seed.  A worker whose id is "worker_" followed
    by text without underscore that [int()] reads as k gets seed + k + 1,
    and so does one whose id goes on after a second underscore, the rest
    being ignored; an id without the prefix is read as a whole; and when
    [int()] raises, on either form of id, the seed is returned unchanged. *)
Theorem distribute_offsets seed :
  (∀ worker_id, distribute py_int seed false worker_id = seed) ∧
  (∀ d k, has_char "_" d = false → py_int d = Some k →
     distribute py_int seed true ("worker_" +:+ d) = seed + k + 1) ∧
  (∀ d rest k, has_char "_" d = false → py_int d = Some k →
     distribute py_int seed true ("worker_" +:+ d +:+ "_" +:+ rest) = seed + k + 1) ∧
  (∀ d, has_char "_" d = false → py_int d = None →
     distribute py_int seed true ("worker_" +:+ d) = seed) ∧
  (∀ d rest, has_char "_" d = false → py_int d = None →
     distribute py_int seed true ("worker_" +:+ d +:+ "_" +:+ rest) = seed) ∧
  (∀ worker_id, String.prefix "worker_" worker_id = false →
     distribute py_int seed true worker_id
     = match py_int worker_id with Some k => seed + k + 1 | None => seed end).
Proof.
  split; [done|]. unfold distribute. cbn [negb]. split; [|split; [|split; [|split]]].
  - intros d k Hd Hk. rewrite (prefix_app "worker_" d).
    rewrite (proj1 (split_worker_id d "" Hd)). simpl. rewrite Hk. lia.
  - intros d rest k Hd Hk.
    rewrite (prefix_app "worker_" (d +:+ "_" +:+ rest)).
    rewrite (proj2 (split_worker_id d rest Hd)). simpl. rewrite Hk. lia.
  - intros d Hd Hk. rewrite (prefix_app "worker_" d).
    rewrite (proj1 (split_worker_id d "" Hd)). simpl. by rewrite Hk.
  - intros d rest Hd Hk.
    rewrite (prefix_app "worker_" (d +:+ "_" +:+ rest)).
    rewrite (proj2 (split_worker_id d rest Hd)). simpl. by rewrite Hk.
  - intros w ->. destruct (py_int w); [lia|done].
Qed.

Lemma classify_ips_spec ips private public :
  classify_ips py_int ips = Some (private, public) →
  (∀ ip, ip ∈ private ↔
         ip ∈ ips ∧ is_loopback ip = false ∧ is_private_ip py_int ip = Some true) ∧
  (∀ ip, ip ∈ public ↔
         ip ∈ ips ∧ is_loopback ip = false ∧ is_private_ip py_int ip = Some false) ∧
  (∀ ip, ip ∈ ips → is_loopback ip = false → is_Some (is_private_ip py_int ip)) ∧
  List.find (String.prefix "192.168.") private = List.find (String.prefix "192.168.") ips.
Proof.
  revert private public. induction ips as [|ip0 ips IH]; intros private public; simpl.
  - intros [= <- <-]. split; [|split; [|split]]; [| | |done].
    + intros ip. split; [by intros ?%elem_of_nil|by intros [?%elem_of_nil _]].
    + intros ip. split; [by intros ?%elem_of_nil|by intros [?%elem_of_nil _]].
    + by intros ip ?%elem_of_nil.
  - destruct (is_loopback ip0) eqn:Hlo.
    + intros Hc. destruct (IH _ _ Hc) as (Hpr & Hpu & Hok & Hfind).
      assert (String.prefix "192.168." ip0 = false) as H192.
      { unfold is_loopback in Hlo. apply orb_true_iff in Hlo as [Hlo|Hlo].
        - by apply prefix_127_not_192.
        - by apply String.eqb_eq in Hlo as ->. }
      rewrite H192. split; [|split; [|split]]; [| | |done].
      * intros ip. rewrite Hpr, elem_of_cons. split; [intuition (subst; auto)|].
        intros ([->|?] & ? & ?); [congruence|done].
      * intros ip. rewrite Hpu, elem_of_cons. split; [intuition (subst; auto)|].
        intros ([->|?] & ? & ?); [congruence|done].
      * intros ip [->|Hin]%elem_of_cons Hnl; [congruence|by apply Hok].
    + destruct (is_private_ip py_int ip0) as [b|] eqn:Hp0; simpl; [|done].
      destruct (classify_ips py_int ips) as [[pr pu]|] eqn:Hc; simpl; [|done].
      destruct (IH _ _ eq_refl) as (Hpr & Hpu & Hok & Hfind).
      destruct b; intros [= <- <-].
      * split; [|split; [|split]].
        -- intros ip. rewrite !elem_of_cons, Hpr. split; [intuition (subst; auto)|].
           intros ([->|?] & ? & ?); [by left|by right].
        -- intros ip. rewrite Hpu, elem_of_cons. split; [intuition (subst; auto)|].
           intros ([->|?] & ? & ?); [congruence|done].
        -- intros ip [->|Hin]%elem_of_cons Hnl; [by rewrite Hp0|by apply Hok].
        -- simpl. by rewrite Hfind.
      * assert (String.prefix "192.168." ip0 = false) as H192.
        { unfold is_private_ip in Hp0.
          destruct (String.prefix "192.168." ip0); [done|done]. }
        rewrite H192. split; [|split; [|split]]; [| | |done].
        -- intros ip. rewrite Hpr, elem_of_cons. split; [intuition (subst; auto)|].
           intros ([->|?] & ? & ?); [congruence|done].
        -- intros ip. rewrite !elem_of_cons, Hpu. split; [intuition (subst; auto)|].
           intros ([->|?] & ? & ?); [by left|by right].
        -- intros ip [->|Hin]%elem_of_cons Hnl; [by rewrite Hp0|by apply Hok].
Qed.

Lemma classify_ips_None ips :
  classify_ips py_int ips = None ↔
  ∃ ip, ip ∈ ips ∧ is_loopback ip = false ∧ is_private_ip py_int ip = None.
Proof.
  induction ips as [|ip0 ips IH]; simpl.
  - split; [done|]. by intros (ip & ?%elem_of_nil & _).
  - destruct (is_loopback ip0) eqn:Hlo.
    + rewrite IH. split; intros (ip & Hin & Hnl & Hp).
      * exists ip. split; [by right|done].
      * apply elem_of_cons in Hin as [->|Hin]; [congruence|]. by exists ip.
    + destruct (is_private_ip py_int ip0) as [b|] eqn:Hp0; simpl.
      * destruct (classify_ips py_int ips) as [[pr pu]|] eqn:Hc; simpl.
        -- split; [done|]. intros (ip & Hin & Hnl & Hp).
           apply elem_of_cons in Hin as [->|Hin]; [congruence|].
           assert (Some (pr, pu) = None) as Hn by (apply IH; by exists ip).
           done.
        -- split; [|done]. intros _. destruct (proj1 IH eq_refl) as (ip & Hin & ?).
           exists ip. split; [by right|done].
      * split; [|done]. intros _. exists ip0. split; [by left|done].
Qed.

(** X17: [get_recommended_ip] raises exactly when some address that is not
    skipped as loopback starts with "172." and [int()] refuses its second
    component.  Otherwise it returns [None] only for an empty list, and the
    address it returns is one of the list; it is a loopback address only if
    every address of the list is one, it is a public address only if the
    list holds no private one, and it is the first address that starts with
    "192.168." whenever there is one. *)
Theorem recommended_ip_choice ips :
  (get_recommended_ip py_int ips = None ↔
     ∃ ip, ip ∈ ips ∧ is_loopback ip = false ∧ is_private_ip py_int ip = None) ∧
  (get_recommended_ip py_int ips = Some None ↔ ips = []) ∧
  (∀ ip, get_recommended_ip py_int ips = Some (Some ip) →
     ip ∈ ips ∧
     (is_loopback ip = true → ∀ x, x ∈ ips → is_loopback x = true) ∧
     (is_private_ip py_int ip ≠ Some true →
        ∀ x, x ∈ ips → is_loopback x = false → is_private_ip py_int x = Some false)) ∧
  (∀ ip, get_recommended_ip py_int ips ≠ None →
     List.find (String.prefix "192.168.") ips = Some ip →
     get_recommended_ip py_int ips = Some (Some ip)).
Proof.
  unfold get_recommended_ip.
  destruct (classify_ips py_int ips) as [[pr pu]|] eqn:Hc; simpl.
  2:{ split; [split; [by intros _; apply classify_ips_None|done]|].
      split; [split; [done|]|split; [done|]].
      - intros ->. done.
      - by intros ip []. }
  destruct (classify_ips_spec ips pr pu Hc) as (Hpr & Hpu & Hok & Hfind).
  split.
  { split; [done|]. intros Hex. apply classify_ips_None in Hex. congruence. }
  assert (∀ x, x ∈ pr → x ∈ ips ∧ is_loopback x = false
                         ∧ is_private_ip py_int x = Some true) as Hpr1
    by (intros x; apply Hpr).
  assert (∀ x, x ∈ pu → x ∈ ips ∧ is_loopback x = false
                         ∧ is_private_ip py_int x = Some false) as Hpu1
    by (intros x; apply Hpu).
  destruct pr as [|p0 pr'].
  - destruct pu as [|u0 pu'].
    + assert (∀ x, x ∈ ips → is_loopback x = true) as Hall.
      { intros x Hx. destruct (is_loopback x) eqn:Hlo; [done|].
        destruct (Hok x Hx Hlo) as [[|] Hb].
        - assert (x ∈ @nil string) as Hnil by (by apply Hpr).
          by apply elem_of_nil in Hnil.
        - assert (x ∈ @nil string) as Hnil by (by apply Hpu).
          by apply elem_of_nil in Hnil. }
      split; [|split].
      * destruct ips; simpl; split; done.
      * intros ip Hip. assert (ip ∈ ips) as Hin.
        { destruct ips as [|i0 ips']; simplify_eq/=. by left. }
        split; [done|]. split; [done|].
        intros _ x Hx Hlo. rewrite (Hall x Hx) in Hlo. done.
      * intros ip _ Hf. rewrite <-Hfind in Hf. done.
    + destruct (Hpu1 u0) as (Hin & Hlo & Hp); [by left|].
      split; [|split].
      * split; [done|]. intros ->. by apply elem_of_nil in Hin.
      * intros ip [= <-]. split; [done|]. split; [congruence|].
        intros _ x Hx Hxlo. destruct (Hok x Hx Hxlo) as [[|] Hb]; [|done].
        assert (x ∈ @nil string) as Hnil by (by apply Hpr).
        by apply elem_of_nil in Hnil.
      * intros ip _ Hf. rewrite <-Hfind in Hf. done.
  - assert (∀ ip, match List.find (String.prefix "192.168.") (p0 :: pr') with
                  | Some ip' => Some ip'
                  | None => Some p0
                  end = Some ip → ip ∈ p0 :: pr') as Hres.
    { intros ip. destruct (List.find _ (p0 :: pr')) as [ip'|] eqn:Hf.
      - intros [= <-]. apply find_some in Hf as [Hin _]. by apply list_elem_of_In.
      - intros [= <-]. by left. }
    split; [|split].
    + split; [by destruct (List.find _ (p0 :: pr'))|].
      intros ->. destruct (Hpr1 p0) as (Hin & _); [by left|].
      by apply elem_of_nil in Hin.
    + intros ip [= Hip]. destruct (Hpr1 ip (Hres ip Hip)) as (Hin & Hlo & Hp).
      split; [done|]. split; [congruence|]. by intros [].
    + intros ip _ Hf. rewrite <-Hfind in Hf. by rewrite Hf.
Qed.

End SeedFacts.

(** * More on the worker process manager *)

Section ManagerMore.

Implicit Types (os : OS) (st : Manager) (saved : gmap string SavedProcess).

Lemma save_processes_lookup os st worker_id :
  managed_processes (save_processes os st) !! worker_id
  = e ← processes st !! worker_id;
    if running os e then Some (saved_entry e) else None.
Proof. unfold save_processes. simpl. by rewrite lookup_omap. Qed.

Lemma stop_worker_table os worker_id st proc_info :
  processes st !! worker_id = Some proc_info →
  processes (stop_worker os worker_id st).2
  = (if stop_fails os proc_info then processes st else delete worker_id (processes st))
  ∧ spawned (stop_worker os worker_id st).2 = spawned st.
Proof.
  intros Hst. unfold stop_worker, stop_fails. rewrite Hst.
  destruct (process proc_info) as [p|].
  - destruct (popen_poll os p); simpl; [done|].
    destruct (_kill_process_tree os (pid proc_info)); simpl; [done|].
    by destruct (terminate_process os p).
  - by destruct (_kill_process_tree os (pid proc_info)).
Qed.

Lemma stop_error_fails os worker_id st proc_info :
  processes st !! worker_id = Some proc_info →
  stop_error (stop_worker os worker_id st).1 ↔ stop_fails os proc_info = true.
Proof.
  intros Hst. unfold stop_worker, stop_fails, stop_error. rewrite Hst.
  destruct (process proc_info) as [p|].
  - destruct (popen_poll os p); simpl; [by split; [intros (_ & _ & ?)|]|].
    destruct (_kill_process_tree os (pid proc_info)); simpl;
      [by split; [intros [? _]|]|].
    destruct (terminate_process os p) as [e|]; simpl.
    + split; [done|]. intros _.
      repeat split; intros Heq; vm_compute in Heq; discriminate Heq.
    + split; [by intros [? _]|done].
  - destruct (_kill_process_tree os (pid proc_info)); simpl.
    + by split; [intros [? _]|].
    + split; [done|]. intros _. by repeat split.
Qed.

Lemma get_managed_workers_fold os (procs m : gmap string ProcInfo) worker_id :
  (map_fold (managed_step os) (∅, procs) m).1 !! worker_id
  = (e ← m !! worker_id; if running os e then Some (managed_info e) else None)
  ∧ (map_fold (managed_step os) (∅, procs) m).2 !! worker_id
    = match m !! worker_id with
      | Some e => if running os e then procs !! worker_id else None
      | None => procs !! worker_id
      end.
Proof.
  revert worker_id.
  apply (map_fold_weak_ind (λ acc m, ∀ w,
    acc.1 !! w = (e ← m !! w; if running os e then Some (managed_info e) else None)
    ∧ acc.2 !! w = match m !! w with
                   | Some e => if running os e then procs !! w else None
                   | None => procs !! w
                   end)).
  - intros w. by rewrite !lookup_empty.
  - intros i x m' acc Hi IH w. unfold managed_step, running in *.
    destruct (IH w) as [IH1 IH2].
    destruct (decide (i = w)) as [->|Hne].
    + rewrite lookup_insert_eq. rewrite Hi in IH1, IH2. simpl in *.
      destruct ((_check_worker_process os x).1); simpl.
      * by rewrite lookup_insert_eq.
      * by rewrite lookup_delete_eq.
    + rewrite (lookup_insert_ne m') by done.
      destruct ((_check_worker_process os x).1); simpl.
      * by rewrite lookup_insert_ne.
      * by rewrite lookup_delete_ne.
Qed.

Lemma get_managed_workers_table os st :
  (∀ worker_id,
     (get_managed_workers os st).1 !! worker_id
     = e ← processes st !! worker_id;
       if running os e then Some (managed_info e) else None) ∧
  (∀ worker_id,
     processes (get_managed_workers os st).2 !! worker_id
     = e ← processes st !! worker_id;
       if running os e then Some e else None) ∧
  managed_processes (get_managed_workers os st).2 = managed_processes st ∧
  spawned (get_managed_workers os st).2 = spawned st ∧
  get_managed_workers os (get_managed_workers os st).2 = get_managed_workers os st.
Proof.
  assert (∀ st' w,
     processes (get_managed_workers os st').2 !! w
     = e ← processes st' !! w; if running os e then Some e else None) as Htab.
  { intros st' w. unfold get_managed_workers. simpl.
    rewrite (proj2 (get_managed_workers_fold os _ _ w)).
    destruct (processes st' !! w) as [e|] eqn:He; simpl; [|done].
    by destruct (running os e). }
  assert (∀ st' w,
     (get_managed_workers os st').1 !! w
     = e ← processes st' !! w; if running os e then Some (managed_info e) else None)
    as Hrep.
  { intros st' w. unfold get_managed_workers. simpl.
    apply (proj1 (get_managed_workers_fold os _ _ w)). }
  split; [apply Hrep|]. split; [apply Htab|]. split; [done|]. split; [done|].
  assert (processes (get_managed_workers os st).2 = processes
            (get_managed_workers os (get_managed_workers os st).2).2) as Hp.
  { apply map_eq. intros w. rewrite (Htab (get_managed_workers os st).2), (Htab st).
    destruct (processes st !! w) as [e|]; simpl; [|done].
    destruct (running os e) eqn:Hr; simpl; [by rewrite Hr|done]. }
  assert ((get_managed_workers os (get_managed_workers os st).2).1
          = (get_managed_workers os st).1) as Hm.
  { apply map_eq. intros w. rewrite (Hrep (get_managed_workers os st).2), (Hrep st).
    rewrite (Htab st).
    destruct (processes st !! w) as [e|]; simpl; [|done].
    destruct (running os e) eqn:Hr; simpl; [by rewrite Hr|done]. }
  destruct (get_managed_workers os (get_managed_workers os st).2) as [m2 st2] eqn:H2.
  destruct (get_managed_workers os st) as [m1 st1] eqn:H1.
  simpl in *. subst m2. f_equal.
  assert (managed_processes st2 = managed_processes st1) as Hmp
    by (by apply (f_equal snd) in H2; simpl in H2; subst st2).
  assert (spawned st2 = spawned st1) as Hsp
    by (by apply (f_equal snd) in H2; simpl in H2; subst st2).
  destruct st1, st2. simpl in *. by subst.
Qed.

(** X1: [get_managed_workers] reports exactly the workers that still run,
    with the pid, start time, log file and launching flag on record; it
    deletes the others from the table, touches neither the saved snapshot
    nor the record of started processes, and a second call finds nothing
    more to delete. *)
Theorem get_managed_workers_reports_running os st :
  (∀ worker_id,
     (get_managed_workers os st).1 !! worker_id
     = e ← processes st !! worker_id;
       if running os e
       then Some {| info_pid := pid e;
                    info_started_at := started_at e;
                    info_log_file := log_file e;
                    info_launching := launching e |}
       else None) ∧
  (∀ worker_id,
     processes (get_managed_workers os st).2 !! worker_id
     = e ← processes st !! worker_id;
       if running os e then Some e else None) ∧
  managed_processes (get_managed_workers os st).2 = managed_processes st ∧
  spawned (get_managed_workers os st).2 = spawned st ∧
  get_managed_workers os (get_managed_workers os st).2 = get_managed_workers os st.
Proof. exact (get_managed_workers_table os st). Qed.

Lemma cleanup_fold os st (m : gmap string ProcInfo) :
  let st' := map_fold (λ worker_id _ acc, (stop_worker os worker_id acc).2) st m in
  (∀ w, processes st' !! w
        = match m !! w with
          | Some _ => e ← processes st !! w; if stop_fails os e then Some e else None
          | None => processes st !! w
          end)
  ∧ spawned st' = spawned st.
Proof.
  apply (map_fold_weak_ind (λ acc m,
    (∀ w, processes acc !! w
          = match m !! w with
            | Some _ => e ← processes st !! w; if stop_fails os e then Some e else None
            | None => processes st !! w
            end)
    ∧ spawned acc = spawned st)).
  - split; [|done]. intros w. by rewrite lookup_empty.
  - intros i x m' acc Hi [IH1 IH2].
    pose proof (IH1 i) as Hacc. rewrite Hi in Hacc.
    destruct (processes st !! i) as [e|] eqn:He.
    + destruct (stop_worker_table os i acc e Hacc) as [Htab Hsp].
      split; [|by rewrite Hsp]. intros w. rewrite Htab.
      destruct (decide (i = w)) as [->|Hne].
      * rewrite lookup_insert_eq, He. simpl.
        destruct (stop_fails os e); [done|apply lookup_delete_eq].
      * rewrite (lookup_insert_ne m') by done. rewrite <-IH1.
        destruct (stop_fails os e); [done|by apply lookup_delete_ne].
    + assert ((stop_worker os i acc).2 = acc) as ->.
      { unfold stop_worker. by rewrite Hacc. }
      split; [|done]. intros w.
      destruct (decide (i = w)) as [->|Hne].
      * by rewrite lookup_insert_eq, Hacc, He.
      * rewrite (lookup_insert_ne m') by done. apply IH1.
Qed.

(** X2: after [cleanup_all] the saved snapshot is empty whatever happened;
    the table keeps exactly the workers whose own stop fails, each with its
    entry unchanged, so one stuck worker neither blocks the others nor hides
    them; nothing is started.  [cleanup_on_exit] with the setting off stops
    nobody and leaves the table as it was. *)
Theorem cleanup_all_keeps_only_stuck os st :
  managed_processes (cleanup_all os st) = ∅ ∧
  (∀ worker_id proc_info,
     processes (cleanup_all os st) !! worker_id = Some proc_info ↔
     processes st !! worker_id = Some proc_info
     ∧ stop_error (stop_worker os worker_id st).1) ∧
  spawned (cleanup_all os st) = spawned st ∧
  cleanup_on_exit true os st = cleanup_all os st ∧
  processes (cleanup_on_exit false os st) = processes st.
Proof.
  destruct (cleanup_fold os st (processes st)) as [Htab Hsp].
  split; [done|]. split; [|by split].
  intros w e. unfold cleanup_all. simpl. rewrite Htab.
  destruct (processes st !! w) as [e'|] eqn:He; simpl.
  - rewrite (stop_error_fails os w st e' He).
    destruct (stop_fails os e');
      (split; [by intros ?|by intros [? ?]]).
  - split; [done|by intros [? _]].
Qed.

Lemma without_launching_id proc_info :
  launching proc_info = false → without_launching proc_info = proc_info.
Proof. destruct proc_info. simpl. by intros ->. Qed.

Lemma clear_launching_alter os worker_id st :
  ((clear_launching_state os worker_id st).1 = true ↔ worker_id ≠ Some "") ∧
  (worker_id ≠ Some "" →
     processes (clear_launching_state os worker_id st).2
     = alter without_launching (default "None" worker_id) (processes st)) ∧
  (worker_id = Some "" → (clear_launching_state os worker_id st).2 = st) ∧
  spawned (clear_launching_state os worker_id st).2 = spawned st ∧
  clear_launching_state os worker_id (clear_launching_state os worker_id st).2
  = clear_launching_state os worker_id st.
Proof.
  unfold clear_launching_state.
  destruct (decide (worker_id = Some "")) as [->|Hne]; simpl.
  { split; [by split|]. by repeat split. }
  assert (truthy (default "None" worker_id) = true) as ->.
  { apply truthy_true. destruct worker_id as [w|]; simpl; [congruence|done]. }
  set (w := default "None" worker_id).
  destruct (processes st !! w) as [e|] eqn:He; simpl.
  - destruct (launching e) eqn:Hl; simpl.
    + split; [done|]. split.
      { intros _. apply map_eq. intros w'. rewrite lookup_alter.
        destruct (decide (w = w')) as [<-|Hw].
        - by rewrite lookup_insert_eq, He.
        - by rewrite lookup_insert_ne. }
      split; [done|]. split; [done|]. by rewrite lookup_insert_eq.
    + split; [done|]. split.
      { intros _. apply map_eq. intros w'. rewrite lookup_alter.
        destruct (decide (w = w')) as [<-|Hw]; [|done].
        rewrite He. simpl. by rewrite (without_launching_id e Hl). }
      split; [done|]. split; [done|]. by rewrite He, Hl.
  - split; [done|]. split.
    { intros _. apply map_eq. intros w'. rewrite lookup_alter.
      destruct (decide (w = w')) as [<-|Hw]; [|done]. by rewrite He. }
    split; [done|]. split; [done|]. by rewrite He.
Qed.

(** X3: [clear_launching_state] changes nothing in the table but the entry
    of the worker it names, which it leaves with the launching flag off and
    every other field as it was; it starts no process, and clearing twice is
    clearing once.  It answers success for a worker it does not know and for
    a request that names no worker at all (the absent id is read as the
    string "None"), and refuses only the empty id. *)
Theorem clear_launching_only_clears_flag os worker_id st :
  ((clear_launching_state os worker_id st).1 = true ↔ worker_id ≠ Some "") ∧
  (worker_id ≠ Some "" →
     ∀ w, processes (clear_launching_state os worker_id st).2 !! w
          = if decide (w = default "None" worker_id)
            then e ← processes st !! w;
                 Some {| pid := pid e;
                         process := process e;
                         started_at := started_at e;
                         config := config e;
                         log_file := log_file e;
                         is_monitor := is_monitor e;
                         launching := false |}
            else processes st !! w) ∧
  (worker_id = Some "" → (clear_launching_state os worker_id st).2 = st) ∧
  spawned (clear_launching_state os worker_id st).2 = spawned st ∧
  clear_launching_state os worker_id (clear_launching_state os worker_id st).2
  = clear_launching_state os worker_id st.
Proof.
  destruct (clear_launching_alter os worker_id st) as (Hans & Htab & Hempty & Hsp & Hidem).
  split; [exact Hans|]. split; [|split; [exact Hempty|split; [exact Hsp|exact Hidem]]].
  intros Hne w. rewrite (Htab Hne), lookup_alter.
  destruct (decide (w = default "None" worker_id)) as [->|Hw].
  - rewrite decide_True by done. by destruct (processes st !! default "None" worker_id).
  - by rewrite decide_False by done.
Qed.

(** X4: [stop_worker] either leaves the manager exactly as it was, when the
    id is not managed (the answer is then "Worker not managed by UI") or the
    stop fails, or it deletes the worker's entry and saves what remains;
    it never touches another worker's entry, never starts a process, and
    after a stop that reports success the worker is neither in the table nor
    in the saved snapshot. *)
Theorem stop_worker_effect os worker_id st :
  (processes st !! worker_id = None →
     stop_worker os worker_id st = ((false, "Worker not managed by UI"), st)) ∧
  ((stop_worker os worker_id st).2 = st
   ∨ (stop_worker os worker_id st).2 = save_processes os (evict worker_id st)) ∧
  ((stop_worker os worker_id st).1.1 = true →
     processes (stop_worker os worker_id st).2 !! worker_id = None
     ∧ managed_processes (stop_worker os worker_id st).2 !! worker_id = None) ∧
  (∀ other, other ≠ worker_id →
     processes (stop_worker os worker_id st).2 !! other = processes st !! other) ∧
  spawned (stop_worker os worker_id st).2 = spawned st.
Proof.
  assert (managed_processes (save_processes os (evict worker_id st)) !! worker_id = None)
    as Hsnap.
  { rewrite save_processes_lookup. simpl. by rewrite lookup_delete_eq. }
  unfold stop_worker.
  destruct (processes st !! worker_id) as [e|] eqn:He; [|by repeat split; auto].
  split; [done|].
  assert (∀ other, other ≠ worker_id →
            processes (save_processes os (evict worker_id st)) !! other
            = processes st !! other) as Hother.
  { intros other Hne. simpl. by apply lookup_delete_ne. }
  assert (processes (save_processes os (evict worker_id st)) !! worker_id = None)
    as Hgone by apply lookup_delete_eq.
  destruct (process e) as [p|].
  - destruct (popen_poll os p); [by repeat split; auto|].
    destruct (_kill_process_tree os (pid e)); [by repeat split; auto|].
    destruct (terminate_process os p); by repeat split; auto.
  - destruct (_kill_process_tree os (pid e)); by repeat split; auto.
Qed.

Lemma stop_worker_success os worker_id st :
  (stop_worker os worker_id st).1.1 = true →
  processes (stop_worker os worker_id st).2 !! worker_id = None
  ∧ managed_processes (stop_worker os worker_id st).2 !! worker_id = None.
Proof.
  assert (managed_processes (save_processes os (evict worker_id st)) !! worker_id = None)
    as Hsnap.
  { rewrite save_processes_lookup. simpl. by rewrite lookup_delete_eq. }
  assert (processes (save_processes os (evict worker_id st)) !! worker_id = None)
    as Hgone by apply lookup_delete_eq.
  unfold stop_worker.
  destruct (processes st !! worker_id) as [e|] eqn:He; [|done].
  destruct (process e) as [p|].
  - destruct (popen_poll os p); [done|].
    destruct (_kill_process_tree os (pid e)); [done|].
    by destruct (terminate_process os p).
  - by destruct (_kill_process_tree os (pid e)).
Qed.

Lemma contains_not_managed_literals :
  contains "not managed" "Worker not managed by UI" = true ∧
  contains "not managed" "Worker already stopped" = false ∧
  contains "not managed" "Failed to stop worker process" = false.
Proof. by vm_compute. Qed.

(** X5: [stop_worker_endpoint] answers 400 for an empty id and 404 with
    "Worker not managed by UI" for an id that is not managed, both without
    changing anything; a worker that had already stopped and a restored
    worker whose tree kill fails are answered 409; status 200 means the
    worker is gone from the table and from the saved snapshot. *)
Theorem stop_worker_endpoint_statuses os worker_id st :
  (worker_id = "" →
     stop_worker_endpoint os worker_id st = ((400, "Missing worker_id"), st)) ∧
  (worker_id ≠ "" → processes st !! worker_id = None →
     stop_worker_endpoint os worker_id st = ((404, "Worker not managed by UI"), st)) ∧
  (∀ proc_info p code,
     worker_id ≠ "" → processes st !! worker_id = Some proc_info →
     process proc_info = Some p → popen_poll os p = Some code →
     (stop_worker_endpoint os worker_id st).1 = (409, "Worker already stopped")) ∧
  (∀ proc_info,
     worker_id ≠ "" → processes st !! worker_id = Some proc_info →
     process proc_info = None → _kill_process_tree os (pid proc_info) = false →
     stop_worker_endpoint os worker_id st
     = ((409, "Failed to stop worker process"), st)) ∧
  ((stop_worker_endpoint os worker_id st).1.1 = 200 →
     processes (stop_worker_endpoint os worker_id st).2 !! worker_id = None
     ∧ managed_processes (stop_worker_endpoint os worker_id st).2 !! worker_id = None).
Proof.
  destruct contains_not_managed_literals as (Hc1 & Hc2 & Hc3).
  unfold stop_worker_endpoint. split; [by intros ->|].
  split.
  { intros Hne Hst. rewrite (truthy_true _ Hne).
    unfold stop_worker. rewrite Hst. by rewrite Hc1. }
  split.
  { intros e p code Hne Hst Hp Hpoll. rewrite (truthy_true _ Hne).
    unfold stop_worker. rewrite Hst, Hp, Hpoll. by rewrite Hc2. }
  split.
  { intros e Hne Hst Hp Hk. rewrite (truthy_true _ Hne).
    unfold stop_worker. rewrite Hst, Hp, Hk. by rewrite Hc3. }
  destruct (truthy worker_id); [|by intros [=]].
  pose proof (stop_worker_success os worker_id st) as Hok.
  destruct (stop_worker os worker_id st) as [[success message] st'].
  simpl in *. destruct success; simpl; [by intros _; apply Hok|].
  by destruct (contains "not managed" message); intros [=].
Qed.



(** X7: what survives a restart.  A manager built from the snapshot that
    [save_processes] wrote holds the workers that ran at the time of saving
    and whose pid is alive at the time of loading, each with the pid, start
    time, configuration and log file it had; the process handle, the monitor
    flag and the launching flag do not survive. *)
Theorem save_then_load os_save os_load st worker_id :
  processes (init os_load (managed_processes (save_processes os_save st))) !! worker_id
  = e ← processes st !! worker_id;
    if running os_save e && bool_decide (pid e ≠ 0) && is_process_alive os_load (pid e)
    then Some {| pid := pid e;
                 process := None;
                 started_at := started_at e;
                 config := config e;
                 log_file := log_file e;
                 is_monitor := false;
                 launching := false |}
    else None.
Proof.
  rewrite init_lookup, save_processes_lookup.
  destruct (processes st !! worker_id) as [e|]; simpl; [|done].
  destruct (running os_save e); simpl; [|done].
  by destruct (bool_decide (pid e ≠ 0) && is_process_alive os_load (pid e)).
Qed.

(** X18: a stopped worker stays stopped.  After a stop that does not fail
    (the worker is stopped, or had already stopped), a manager built from
    the snapshot that the stop leaves restores the other workers that ran
    when the stop was made and whose pid is alive at the restart, and never
    the stopped one, even if its pid is alive at the restart. *)
Theorem stopped_worker_not_restored os os_load worker_id proc_info st :
  processes st !! worker_id = Some proc_info →
  stop_fails os proc_info = false →
  ∀ w, processes (init os_load (managed_processes (stop_worker os worker_id st).2)) !! w
       = if decide (w = worker_id) then None
         else e ← processes st !! w;
              if running os e && bool_decide (pid e ≠ 0) && is_process_alive os_load (pid e)
              then Some (restored (pid e) (saved_entry e)) else None.
Proof.
  intros Hst Hfails w.
  assert ((stop_worker os worker_id st).2 = save_processes os (evict worker_id st)) as ->.
  { unfold stop_worker, stop_fails in *. rewrite Hst.
    destruct (process proc_info) as [p|].
    - destruct (popen_poll os p); simpl in *; [done|].
      destruct (_kill_process_tree os (pid proc_info)); simpl in *; [done|].
      by destruct (terminate_process os p).
    - by destruct (_kill_process_tree os (pid proc_info)). }
  rewrite init_lookup, save_processes_lookup. simpl.
  destruct (decide (w = worker_id)) as [->|Hne].
  - by rewrite lookup_delete_eq.
  - rewrite lookup_delete_ne by done.
    destruct (processes st !! w) as [e|]; simpl; [|done].
    destruct (running os e); simpl; [|done].
    by destruct (bool_decide (pid e ≠ 0) && is_process_alive os_load (pid e)).
Qed.

End ManagerMore.

Section AutoLaunchFacts.

Variable py_lower : string → string.
Variable env_for : WorkerConfig → LaunchEnv.

Lemma auto_launch_one_spec os worker st :
  match launch_pid (env_for worker) with
  | Some child =>
      processes (auto_launch_one env_for os worker st)
      = <[cfg_id worker := launched_entry (env_for worker) worker child]> (processes st)
      ∧ spawned (auto_launch_one env_for os worker st)
        = spawned st ++ [launched_spawn (env_for worker) worker child]
  | None => auto_launch_one env_for os worker st = st
  end.
Proof.
  unfold auto_launch_one, launch_worker, launch_pid.
  destruct (main_py_exists (env_for worker)); [|done].
  destruct (popen_result (env_for worker)) as [child|]; [|done].
  simpl. rewrite lookup_insert_eq. simpl. split; [|done].
  by rewrite insert_insert_eq.
Qed.

Lemma auto_launch_step_spec os worker st :
  auto_launch_step py_lower env_for os st worker
  = if would_launch py_lower os worker (processes st !! cfg_id worker)
    then auto_launch_one env_for os worker st else st.
Proof.
  unfold auto_launch_step, would_launch, _is_process_running.
  destruct (cfg_enabled worker); [|done].
  destruct (is_local py_lower worker); [|done]. simpl.
  destruct (processes st !! cfg_id worker) as [e|]; [|done].
  by destruct (is_process_alive os (pid e)).
Qed.

Lemma auto_launch_step_other os worker st w :
  cfg_id worker ≠ w →
  processes (auto_launch_step py_lower env_for os st worker) !! w = processes st !! w.
Proof.
  intros Hne. rewrite auto_launch_step_spec.
  destruct (would_launch py_lower os worker _); [|done].
  pose proof (auto_launch_one_spec os worker st) as Hone.
  destruct (launch_pid (env_for worker)) as [child|].
  - destruct Hone as [-> _]. by rewrite lookup_insert_ne.
  - by rewrite Hone.
Qed.

Lemma auto_launch_step_spawned os worker st :
  ∃ new,
    spawned (auto_launch_step py_lower env_for os st worker) = spawned st ++ new ∧
    Forall (λ s, spawn_config s = worker
                 ∧ cfg_enabled worker = true
                 ∧ is_local py_lower worker = true
                 ∧ popen_result (env_for worker) = Some (spawn_pid s)) new.
Proof.
  rewrite auto_launch_step_spec. unfold would_launch.
  destruct (cfg_enabled worker) eqn:Hen; simpl;
    [|exists []; by rewrite app_nil_r].
  destruct (is_local py_lower worker) eqn:Hloc; simpl;
    [|exists []; by rewrite app_nil_r].
  destruct (match processes st !! cfg_id worker with
            | Some e => negb (is_process_alive os (pid e))
            | None => true
            end); [|exists []; by rewrite app_nil_r].
  pose proof (auto_launch_one_spec os worker st) as Hone. unfold launch_pid in Hone.
  destruct (main_py_exists (env_for worker)); simpl in Hone;
    [|rewrite Hone; exists []; by rewrite app_nil_r].
  destruct (popen_result (env_for worker)) as [child|] eqn:Hpop;
    [|rewrite Hone; exists []; by rewrite app_nil_r].
  destruct Hone as [_ ->]. eexists. split; [done|].
  by apply Forall_singleton.
Qed.

Lemma auto_launch_fold_spawned os workers st :
  ∃ new,
    spawned (foldl (auto_launch_step py_lower env_for os) st workers) = spawned st ++ new ∧
    Forall (λ s, spawn_config s ∈ workers
                 ∧ cfg_enabled (spawn_config s) = true
                 ∧ is_local py_lower (spawn_config s) = true
                 ∧ popen_result (env_for (spawn_config s)) = Some (spawn_pid s)) new.
Proof.
  revert st. induction workers as [|worker workers IH]; intros st; simpl.
  { exists []. by rewrite app_nil_r. }
  destruct (IH (auto_launch_step py_lower env_for os st worker)) as (new2 & -> & Hnew2).
  destruct (auto_launch_step_spawned os worker st) as (new1 & -> & Hnew1).
  exists (new1 ++ new2). split; [by rewrite app_assoc|].
  apply Forall_app. split.
  - eapply Forall_impl; [exact Hnew1|]. intros s (-> & ? & ? & ?).
    split; [by left|done].
  - eapply Forall_impl; [exact Hnew2|]. intros s (? & ? & ? & ?).
    split; [by right|done].
Qed.


(** X8: [auto_launch_workers] does nothing when the setting is off; when it
    is on, every process it starts is that of a worker of the configuration
    that is enabled and whose host is local, so a remote or a disabled
    worker is never launched, and the entry of any id that belongs to no
    enabled local worker stays as it was. *)
Theorem auto_launch_only_enabled_local auto_launch workers os st :
  auto_launch_workers py_lower env_for false workers os st = st ∧
  (∃ new,
     spawned (auto_launch_workers py_lower env_for auto_launch workers os st)
     = spawned st ++ new ∧
     Forall (λ s, spawn_config s ∈ workers
                  ∧ cfg_enabled (spawn_config s) = true
                  ∧ is_local py_lower (spawn_config s) = true
                  ∧ popen_result (env_for (spawn_config s)) = Some (spawn_pid s)) new) ∧
  (∀ w,
     (∀ worker, worker ∈ workers → cfg_id worker = w →
                cfg_enabled worker && is_local py_lower worker = false) →
     processes (auto_launch_workers py_lower env_for auto_launch workers os st) !! w
     = processes st !! w).
Proof.
  split; [done|]. unfold auto_launch_workers. destruct auto_launch.
  - split.
    + apply (auto_launch_fold_spawned os workers
               {| processes := processes st; managed_processes := ∅;
                  spawned := spawned st |}).
    + intros w Hw.
      set (st0 := {| processes := processes st; managed_processes := ∅;
                     spawned := spawned st |}).
      change (processes st !! w) with (processes st0 !! w). generalize st0.
      clear st0. induction workers as [|worker workers IH]; intros st0; simpl; [done|].
      rewrite IH by (intros ???; apply Hw; [by right|done]).
      destruct (decide (cfg_id worker = w)) as [Hid|Hid];
        [|by apply auto_launch_step_other].
      rewrite auto_launch_step_spec. unfold would_launch.
      by rewrite (Hw worker (ltac:(by left)) Hid).
  - split; [|done]. exists []. split; [by rewrite app_nil_r|constructor].
Qed.


End AutoLaunchFacts.


(** * Sample runs *)

(** The scenario of the interface description: "a" submits index 0, then
    index 1 as its last; "b" submits index 0 as its last; the master holds no
    image of its own.  The call returns a:0, a:1, b:0 and leaves no queue. *)
Example end_to_end_scenario :
  execute sample_cat [] "j1" false "" ["a"; "b"] 1 ""
    [EvSubmit (fragment_request "j1" (sample_fragment "b" 0 30 true));
     EvSubmit (fragment_request "j1" (sample_fragment "a" 0 10 false));
     EvSubmit (fragment_request "j1" (sample_fragment "a" 1 20 true))]
    sample_jobs
  = Outcome (Some [10; 20; 30]%nat) ∅ [].
Proof. by vm_compute. Qed.

(** A worker that stays silent: the wait times out, the call returns what
    "a" sent after the master's own image, and the queue is gone. *)
Example partial_timeout_scenario :
  execute sample_cat [5%nat] "j1" false "" ["a"; "b"] 1 ""
    [EvSubmit (fragment_request "j1" (sample_fragment "a" 0 10 true));
     EvTimeout []]
    sample_jobs
  = Outcome (Some [5; 10]%nat) ∅ [].
Proof. by vm_compute. Qed.

(** C1, the failing input: the endpoint accepts a request for "j1" whose
    form has no worker id and queues it; the last fragment of "a", the one
    expected worker, follows.  The call buckets both, deletes the queue, and
    raises [TypeError] at [sorted]: it returns no batch. *)
Lemma collect_raises_without_worker_id :
  job_complete_endpoint sample_anonymous sample_jobs
  = (Success, {["j1" := [Fragment None 0 [6%nat] false]]})
  ∧ execute sample_cat [5%nat] "j1" false "" ["a"] 1 ""
      [EvSubmit sample_anonymous;
       EvSubmit (fragment_request "j1" (sample_fragment "a" 0 7 true))]
      sample_jobs
    = Outcome None ∅ [].
Proof. split; by vm_compute. Qed.

(** C2, a run against the claim: two workers are expected, "1" and "2";
    last fragments arrive from "3" and "1"; the loop ends without a timeout
    although "2" never reported. *)
Lemma collect_stops_on_unexpected_worker :
  (collect "j1" ["1"; "2"] sample_unexpected sample_jobs).1.1 = AllDone ∧
  (Some "2" ∉ workers_done (collect "j1" ["1"; "2"] sample_unexpected sample_jobs).2) ∧
  (workers_done (collect "j1" ["1"; "2"] sample_unexpected sample_jobs).2
    ≠ list_to_set [Some "1"; Some "2"]).
Proof.
  assert (workers_done (collect "j1" ["1"; "2"] sample_unexpected sample_jobs).2
          = {[Some "1"; Some "3"]}) as -> by (by vm_compute).
  split; [by vm_compute|].
  assert (Some "2" ∉ ({[Some "1"; Some "3"]} : gset (option string))) as Hnot.
  { rewrite elem_of_union, !elem_of_singleton. by intros [?|?]. }
  split; [done|]. intros Heq. apply Hnot. rewrite Heq.
  rewrite elem_of_list_to_set. by right; left.
Qed.

(** C2, as amended, on a run where the one expected worker reports. *)
Lemma collect_all_done_counts_witness :
  size (workers_done (collect "j1" ["a"] sample_single sample_jobs).2) = length ["a"] ∧
  (NoDup ["a"] →
   workers_done (collect "j1" ["a"] sample_single sample_jobs).2
     ⊆ list_to_set [Some "a"] →
   workers_done (collect "j1" ["a"] sample_single sample_jobs).2
   = list_to_set [Some "a"]).
Proof.
  apply (collect_all_done_counts "j1" ["a"] sample_single sample_jobs
           (collect "j1" ["a"] sample_single sample_jobs).1.2).
  vm_compute. reflexivity.
Defined.

(** C3, a run against the claim: no worker is expected, so every expected
    worker is done; the call returns and the table still has the queue
    prepared for "j1". *)
Lemma collect_without_workers_keeps_queue :
  out_jobs (execute sample_cat [5%nat] "j1" false "" [] 1 "" [] sample_jobs) !! "j1"
  = Some [].
Proof. by vm_compute. Qed.



(** C5 on a submission for "j2", which nobody prepared. *)
Lemma submit_unknown_job_noop_witness :
  job_complete_endpoint (fragment_request "j2" (sample_fragment "a" 0 7 true)) sample_jobs
  = (JobNotFound, sample_jobs).
Proof.
  refine (proj1 (submit_unknown_job_noop "j2" (sample_fragment "a" 0 7 true)
                   sample_jobs _) _).
  - intros Heq. discriminate Heq.
  - vm_compute. reflexivity.
Defined.

(** C6 on worker "1", launched and alive. *)
Lemma launch_already_running_witness :
  launch_worker_endpoint [sample_worker] sample_env sample_os "1"
    (sample_manager sample_launched)
  = (AlreadyRunning 4242 (Some "logs/workers/Worker_1_20240101.log"),
     sample_manager sample_launched).
Proof.
  refine (proj1 (launch_already_running [sample_worker] sample_env sample_os
                   sample_worker (sample_manager sample_launched) sample_launched
                   _ _ _ _)).
  - intros Heq. discriminate Heq.
  - apply list_elem_of_singleton. reflexivity.
  - vm_compute. reflexivity.
  - vm_compute. reflexivity.
Defined.

(** C7, two runs against the claim: the tree kill fails on a restored
    entry, and it fails on an entry with a handle whose fallback
    termination raises; both calls report failure and both entries stay. *)
Lemma stop_error_leaves_entry :
  (stop_worker sample_os_stuck "1" (sample_manager (restored 4242 (sample_saved 4242)))
   = ((false, "Failed to stop worker process"),
      sample_manager (restored 4242 (sample_saved 4242)))
   ∧ processes
       (stop_worker sample_os_stuck "1"
          (sample_manager (restored 4242 (sample_saved 4242)))).2 !! "1"
     = Some (restored 4242 (sample_saved 4242))) ∧
  (stop_worker sample_os_stuck "1" (sample_manager sample_launched)
   = ((false, "Error stopping worker: timed out"), sample_manager sample_launched)
   ∧ processes (stop_worker sample_os_stuck "1" (sample_manager sample_launched)).2 !! "1"
     = Some sample_launched).
Proof. repeat split; by vm_compute. Qed.

(** C7, as amended, on the second of these runs. *)
Lemma stop_error_keeps_entry_witness :
  (stop_worker sample_os_stuck "1" (sample_manager sample_launched)).2
    = sample_manager sample_launched
  ∧ processes (stop_worker sample_os_stuck "1" (sample_manager sample_launched)).2 !! "1"
    = Some sample_launched.
Proof.
  refine (proj1 (stop_error_keeps_entry sample_os_stuck "1"
                   (sample_manager sample_launched) sample_launched _) _).
  - vm_compute. reflexivity.
  - repeat split; intros Heq; vm_compute in Heq; discriminate Heq.
Defined.

(** C8 on a snapshot of two entries: pid 17 is dead, pid 4242 is alive. *)
Lemma load_keeps_live_entries_witness :
  processes (init sample_os {["7" := sample_saved 17; "1" := sample_saved 4242]})
  = {["1" := {| pid := 4242;
                process := None;
                started_at := Some 1700000000;
                config := Some sample_worker;
                log_file := Some "logs/workers/Worker_1_20240101.log";
                is_monitor := false;
                launching := false |}]}.
Proof.
  refine (proj2 (proj2 (proj2 (load_keeps_live_entries sample_os
            {["7" := sample_saved 17; "1" := sample_saved 4242]})))
            "7" "1" (sample_saved 17) (sample_saved 4242) 17 4242 _ _ _ _ _ _ _).
  - intros Heq. discriminate Heq.
  - reflexivity.
  - reflexivity.
  - reflexivity.
  - intros Heq. discriminate Heq.
  - vm_compute. reflexivity.
  - vm_compute. reflexivity.
Defined.

(** ** More sample runs *)

(** X1 on worker "1", launched and alive. *)
Lemma get_managed_workers_reports_running_witness :
  (get_managed_workers sample_os (sample_manager sample_launched)).1 !! "1"
  = Some {| info_pid := 4242;
            info_started_at := Some 1700000000;
            info_log_file := Some "logs/workers/Worker_1_20240101.log";
            info_launching := true |}.
Proof.
  refine (eq_trans
            (proj1 (get_managed_workers_reports_running sample_os
                      (sample_manager sample_launched)) "1") _).
  vm_compute. reflexivity.
Defined.

(** X3 on worker "1", on record as launching: the flag is cleared and the
    rest of the entry stays. *)
Lemma clear_launching_only_clears_flag_witness :
  processes (clear_launching_state sample_os (Some "1")
               (sample_manager sample_launched)).2 !! "1"
  = Some {| pid := 4242;
            process := Some {| popen_pid := 4242 |};
            started_at := Some 1700000000;
            config := Some sample_worker;
            log_file := Some "logs/workers/Worker_1_20240101.log";
            is_monitor := true;
            launching := false |}.
Proof.
  refine (eq_trans
            (proj1 (proj2 (clear_launching_only_clears_flag sample_os (Some "1")
                             (sample_manager sample_launched))) _ "1") _).
  - intros Heq. discriminate Heq.
  - vm_compute. reflexivity.
Defined.

(** X4 on worker "1", launched and alive, on a system where the kill
    succeeds. *)
Lemma stop_worker_effect_witness :
  processes (stop_worker sample_os "1" (sample_manager sample_launched)).2 !! "1" = None
  ∧ managed_processes (stop_worker sample_os "1" (sample_manager sample_launched)).2 !! "1"
    = None.
Proof.
  refine (proj1 (proj2 (proj2 (stop_worker_effect sample_os "1"
                                 (sample_manager sample_launched)))) _).
  vm_compute. reflexivity.
Defined.

(** X5 on a worker whose process has exited, and on a restored worker whose
    tree kill fails. *)
Lemma stop_worker_endpoint_statuses_witness :
  (stop_worker_endpoint sample_os_exited "1" (sample_manager sample_launched)).1
  = (409, "Worker already stopped")
  ∧ stop_worker_endpoint sample_os_stuck "1"
      (sample_manager (restored 4242 (sample_saved 4242)))
    = ((409, "Failed to stop worker process"),
       sample_manager (restored 4242 (sample_saved 4242))).
Proof.
  split.
  - refine (proj1 (proj2 (proj2 (stop_worker_endpoint_statuses sample_os_exited "1"
                                   (sample_manager sample_launched))))
              sample_launched {| popen_pid := 4242 |} 0 _ _ _ _).
    + intros Heq. discriminate Heq.
    + vm_compute. reflexivity.
    + reflexivity.
    + reflexivity.
  - refine (proj1 (proj2 (proj2 (proj2 (stop_worker_endpoint_statuses sample_os_stuck "1"
                (sample_manager (restored 4242 (sample_saved 4242)))))))
              (restored 4242 (sample_saved 4242)) _ _ _ _).
    + intros Heq. discriminate Heq.
    + vm_compute. reflexivity.
    + reflexivity.
    + vm_compute. reflexivity.
Defined.


(** X8 on a configuration with a local and a remote worker: the id of the
    remote one gets no entry. *)
Lemma auto_launch_only_enabled_local_witness :
  processes (auto_launch_workers sample_lower sample_env_for true
               [sample_worker; sample_remote_worker] sample_os
               (sample_manager (restored 17 (sample_saved 17)))) !! "2"
  = processes (sample_manager (restored 17 (sample_saved 17))) !! "2".
Proof.
  refine (proj2 (proj2 (auto_launch_only_enabled_local sample_lower sample_env_for true
                          [sample_worker; sample_remote_worker] sample_os
                          (sample_manager (restored 17 (sample_saved 17))))) "2" _).
  intros worker Hin Hid.
  apply elem_of_cons in Hin as [->|Hin]; [discriminate Hid|].
  apply list_elem_of_singleton in Hin as ->. vm_compute. reflexivity.
Defined.


(** X10 on a call that times out: "a" is served, "b" is silent, and a
    fragment of "b" races in before the drain; both are bucketed. *)
Lemma collect_reads_own_fragments_witness :
  (collect "j1" ["a"; "b"]
     [EvSubmit (fragment_request "j1" (sample_fragment "a" 0 10 true));
      EvTimeout [fragment_request "j1" (sample_fragment "b" 0 30 false)]]
     sample_jobs).2
  = store_all empty_collection
      [sample_fragment "a" 0 10 true; sample_fragment "b" 0 30 false].
Proof.
  refine (eq_trans
            (proj2 (proj2 (collect_reads_own_fragments "j1" ["a"; "b"]
               [EvSubmit (fragment_request "j1" (sample_fragment "a" 0 10 true));
                EvTimeout [fragment_request "j1" (sample_fragment "b" 0 30 false)]]
               sample_jobs)) _) _).
  - vm_compute. reflexivity.
  - vm_compute. reflexivity.
Defined.

(** X11 on two workers: "1" sends two images and "2" one, the request of
    "2" being served between those of "1"; the schedule goes on with a wait
    that would time out, which is never reached. *)
Lemma all_workers_deliver_witness :
  (collect "j1" ["2"; "1"] ((EvSubmit <$> sample_requests) ++ [EvTimeout []])
     sample_jobs).1.1 = AllDone
  ∧ out_images (execute sample_cat [1; 2]%nat "j1" false "http://master:8188"
                  ["2"; "1"] 1 "master"
                  ((EvSubmit <$> sample_requests) ++ [EvTimeout []]) sample_jobs)
    = Some [1; 2; 10; 11; 20]%nat.
Proof.
  refine (all_workers_deliver sample_cat sample_received [1; 2]%nat "j1"
            "http://master:8188" ["2"; "1"] 1%nat "master" sample_batch sample_requests
            [EvTimeout []] sample_jobs _ _ _ _ _ _).
  - intros Heq. discriminate Heq.
  - apply NoDup_cons. split; [|apply NoDup_singleton].
    intros Hin. apply list_elem_of_singleton in Hin. discriminate Hin.
  - vm_compute. reflexivity.
  - intros w _. unfold sample_batch. destruct (String.eqb w "1"); discriminate.
  - intros w Hin. apply elem_of_cons in Hin as [->|Hin];
      [|apply list_elem_of_singleton in Hin as ->]; vm_compute; reflexivity.
  - intros r Hin. unfold sample_requests in Hin. rewrite !elem_of_cons in Hin.
    destruct Hin as [->|[->|[->|Hin]]]; [| | |by apply elem_of_nil in Hin]; simpl;
      [exists "1"|exists "2"|exists "1"]; (split; [|reflexivity]);
      rewrite !elem_of_cons; auto.
Defined.

(** X12 on a batch of two images: the second request carries index 1 and
    the last flag. *)
Lemma worker_mode_posts_witness :
  out_posts (execute sample_cat [10; 11]%nat "j1" true "http://master:8188"
               ["1"] 1 "1" [] sample_jobs) !! 1%nat
  = Some (Post "j1" "http://master:8188" "1" 1 true 11%nat).
Proof.
  refine (proj2 (proj1 (proj2 (proj2 (proj2 (worker_mode_posts sample_cat [10; 11]%nat
            "j1" "http://master:8188" ["1"] 1%nat "1" [] sample_jobs))))
            1%nat (Post "j1" "http://master:8188" "1" 1 true 11%nat)) _).
  exists 11%nat. split; reflexivity.
Defined.

(** X13 on job "j2", prepared again while a fragment is pending. *)
Lemma prepare_job_keeps_pending_witness :
  (prepare_job_endpoint "j2" sample_two_jobs).2 !! "j2"
  = Some [sample_fragment "z" 0 99 true].
Proof.
  refine (eq_trans (proj1 (proj2 (prepare_job_keeps_pending "j2" sample_two_jobs)) _) _).
  - intros Heq. discriminate Heq.
  - vm_compute. reflexivity.
Defined.

(** X14 on a request for "j1" whose image cannot be decoded. *)
Lemma job_complete_appends_or_nothing_witness :
  (job_complete_endpoint (SubmitRequest "j1" BadImage (Some "a") (IdxInt 0) true) sample_jobs).1
  = ImageProcessingError.
Proof.
  refine (proj2 (proj2 (proj2 (proj2 (proj2 (job_complete_appends_or_nothing
            (SubmitRequest "j1" BadImage (Some "a") (IdxInt 0) true) sample_jobs))))) _ _).
  - intros Heq. discriminate Heq.
  - reflexivity.
Defined.

(** X15 on a call for "j1" while "j2" has a fragment pending. *)
Lemma collect_leaves_other_jobs_witness :
  out_jobs (execute sample_cat [5%nat] "j1" false "" ["a"] 1 "" sample_single
              sample_two_jobs) !! "j2"
  = sample_two_jobs !! "j2".
Proof.
  refine (proj1 (collect_leaves_other_jobs sample_cat [5%nat] "j1" "" ["a"] 1%nat ""
                   sample_single sample_two_jobs) "j2" _ _).
  - intros Heq. discriminate Heq.
  - apply Forall_cons. split; [|apply Forall_nil_2].
    simpl. intros Heq. discriminate Heq.
Defined.

(** X16 on seed 100: the workers "worker_2" and "worker_2_b" both get 103. *)
Lemma distribute_offsets_witness :
  distribute sample_int 100 true "worker_2" = 103
  ∧ distribute sample_int 100 true "worker_2_b" = 103.
Proof.
  split.
  - refine (proj1 (proj2 (distribute_offsets sample_int 100)) "2" 2 _ _);
      reflexivity.
  - refine (proj1 (proj2 (proj2 (distribute_offsets sample_int 100))) "2" "b" 2 _ _);
      reflexivity.
Defined.

(** X17 on a machine with a loopback address, a 10.x address and a
    192.168.x address. *)
Lemma recommended_ip_choice_witness :
  get_recommended_ip sample_int sample_ips = Some (Some "192.168.1.7").
Proof.
  refine (proj2 (proj2 (proj2 (recommended_ip_choice sample_int sample_ips)))
            "192.168.1.7" _ _).
  - intros Heq. vm_compute in Heq. discriminate Heq.
  - reflexivity.
Defined.

(** X18 on worker "1", stopped while pid 4242 stays alive for the restart. *)
Lemma stopped_worker_not_restored_witness :
  processes (init sample_os
               (managed_processes
                  (stop_worker sample_os "1" (sample_manager sample_launched)).2)) !! "1"
  = None.
Proof.
  refine (stopped_worker_not_restored sample_os sample_os "1" sample_launched
            (sample_manager sample_launched) _ _ "1").
  - vm_compute. reflexivity.
  - vm_compute. reflexivity.
Defined.
